(** * Account pool provisioning: [client/src/providers/accounts.tsx]

    A shallow embedding of the accounts provider of the break client and
    the properties of its cost estimation, batching, retry and
    status / lock state machine.

    Conventions of the embedding.
    - A JavaScript [number] that holds a count or a lamport amount is a
      [Z]; the one expression of the file with a fractional intermediate
      value, [Math.ceil(1000 / parallelization / TX_PER_BYTE)], is
      evaluated over the rationals, and [Double] below re-evaluates it
      in IEEE binary64 to compare the two.
    - A promise is a [Result]: [Ok v] when it resolves with [v],
      [Throw e] when it rejects with [e].
    - React state ([useState]) and refs ([useRef]) are the fields of the
      record [State]; the values a callback closes over are the record
      [Render].
    - The ledger and the key generator are oracles: the outcome of the
      n-th [sendAndConfirmTransaction] call, the n-th generated keypair,
      and the answers of the RPC queries. *)

From Stdlib Require Import String.
From Stdlib Require Import ZArith QArith Qround Lia List Bool.
From Stdlib Require Import SpecFloat DecimalString.
From Equations Require Import Equations.
Import ListNotations.

Open Scope string_scope.
Open Scope list_scope.
Open Scope Z_scope.

(** ** Errors and promises *)

Definition Error := string.

Inductive Result (A : Type) : Type :=
| Ok (value : A)
| Throw (err : Error).
Arguments Ok {A} value.
Arguments Throw {A} err.

Definition isOk {A} (r : Result A) : bool :=
  match r with Ok _ => true | Throw _ => false end.

(** Sequencing of awaited calls without a surrounding [try]. *)
Definition andThen {A B} (r : Result A) (k : A -> Result B) : Result B :=
  match r with
  | Ok v => k v
  | Throw e => Throw e
  end.

Declare Scope promise_scope.
Delimit Scope promise_scope with promise.
Notation "'await' x <- r ; k" := (andThen r (fun x => k))
  (at level 10, x name, r at level 100, k at level 200) : promise_scope.

(** ** Ledger data *)

Inductive PublicKey := PK (id : Z).

Record Keypair := mkKeypair { publicKey : PublicKey; secretKey : Z }.

Inductive Instruction :=
| CreateAccount (fromPubkey newAccountPubkey : PublicKey)
                (lamports space : Z) (programId : PublicKey)
| Transfer (fromPubkey toPubkey : PublicKey) (lamports : Z).

Definition Transaction := list Instruction.

(** The RPC surface the provider consumes.  Each query either answers
    or fails; [getRecentBlockhash] is kept to the one field read from
    it, [feeCalculator.lamportsPerSignature]. *)
Record Connection := mkConnection {
  getMinimumBalanceForRentExemption : Z -> Result Z;
  getRecentBlockhash : Result Z;
  getBalance : PublicKey -> Result Z
}.

(** ** Provider data *)

Inductive Status := initializing | inactive | creating | closing | active.

Record Config := mkConfig {
  program : list PublicKey;
  feePayerKeypairs : list Keypair;
  accountCapacity : Z
}.

Record AccountCosts := mkAccountCosts {
  total : Z;
  feeAccountCost : Z;
  programAccountCost : Z
}.

Definition Status_eqb (a b : Status) : bool :=
  match a, b with
  | initializing, initializing | inactive, inactive | creating, creating
  | closing, closing | active, active => true
  | _, _ => false
  end.

(** ** Cost estimation *)

Definition TX_PER_BYTE : Z := 8.

(** [Math.ceil(1000 / parallelization / TX_PER_BYTE)], with both
    divisions exact.  (For [parallelization = 0] JavaScript yields
    [Infinity]; the rational division yields 0.  No property below is
    about that input.) *)
Definition calculateProgrampace (parallelization : Z) : Z :=
  Qceiling (inject_Z 1000 / inject_Z parallelization / inject_Z TX_PER_BYTE).

Definition calculateTransactionsPerAccount (programpace : Z) : Z :=
  TX_PER_BYTE * programpace.

Definition calculateCosts (connection : Connection) (parallelization : Z)
  : Result AccountCosts :=
  let programpace := calculateProgrampace parallelization in
  (await programAccountCost <-
     getMinimumBalanceForRentExemption connection programpace;
   await feeAccountRent <- getMinimumBalanceForRentExemption connection 0;
   await signatureFee <- getRecentBlockhash connection;
   let txPerAccount := calculateTransactionsPerAccount programpace in
   let feeAccountCost := txPerAccount * signatureFee + feeAccountRent in
   Ok {| feeAccountCost := feeAccountCost;
         programAccountCost := programAccountCost;
         total := parallelization * (programAccountCost + feeAccountCost) |})%promise.

(** ** The world outside the provider

    What the provisioning code does to its surroundings is recorded in
    a [World]: how many keypairs [new Keypair()] has produced, how many
    times [sendAndConfirmTransaction] was called, and the trace of the
    observable events in program order. *)

Inductive Event :=
| EvSend (tx : Transaction) (signers : list Keypair)
         (preflightCommitment : option string)
| EvConsoleError (msg : string)
| EvConsoleWarn (msg : string)
| EvSleep (ms : Z).

Record World := mkWorld {
  keysGenerated : nat;
  sendCalls : nat;
  trace : list Event
}.

(** An asynchronous computation: it transforms the world and resolves
    or rejects. *)
Definition Async (A : Type) : Type := World -> Result A * World.

Definition ret {A} (a : A) : Async A := fun w => (Ok a, w).

Definition throw {A} (e : Error) : Async A := fun w => (Throw e, w).

Definition bind {A B} (m : Async A) (k : A -> Async B) : Async B :=
  fun w =>
    match m w with
    | (Ok a, w') => k a w'
    | (Throw e, w') => (Throw e, w')
    end.

(** [try { m; onOk } catch (err) { onErr err }] *)
Definition tryCatch {A B} (m : Async A) (onOk : A -> Async B)
           (onErr : Error -> Async B) : Async B :=
  fun w =>
    match m w with
    | (Ok a, w') => onOk a w'
    | (Throw e, w') => onErr e w'
    end.

Definition emit (ev : Event) : Async unit :=
  fun w => (Ok tt, {| keysGenerated := keysGenerated w;
                      sendCalls := sendCalls w;
                      trace := trace w ++ [ev] |}).

Definition liftResult {A} (r : Result A) : Async A := fun w => (r, w).

Declare Scope async_scope.
Delimit Scope async_scope with async.
Notation "x <- m ;; k" := (bind m (fun x => k))
  (at level 61, m at next level, right associativity) : async_scope.
Notation "m ;; k" := (bind m (fun _ => k))
  (at level 61, right associativity) : async_scope.

(** [array.slice(start, end)] for [0 <= start <= end]. *)
Definition slice {A} (l : list A) (start stop : Z) : list A :=
  firstn (Z.to_nat (stop - start)) (skipn (Z.to_nat start) l).

Definition string_of_nat (n : nat) : string :=
  DecimalString.NilZero.string_of_uint (Nat.to_uint n).

(** ** Batch submission and provisioning *)

Section Provisioning.

(** The [n]-th keypair produced by [new Keypair()]. *)
Variable keygen : nat -> Keypair.

(** The outcome of the [n]-th call of [sendAndConfirmTransaction]. *)
Variable network : nat -> Result unit.

(** Modelled from the spec: [getFeePayers], imported from the [utils]
    module.  The spec has it recompute the fee-payer set
    deterministically from the parallelization, so it is a function of
    that number alone. *)
Variable getFeePayers : Z -> list Keypair.

Definition newKeypair : Async Keypair :=
  fun w => (Ok (keygen (keysGenerated w)),
            {| keysGenerated := S (keysGenerated w);
               sendCalls := sendCalls w;
               trace := trace w |}).

Definition sendAndConfirmTransaction (tx : Transaction)
           (signers : list Keypair) (options : option string)
  : Async unit :=
  fun w => (network (sendCalls w),
            {| keysGenerated := keysGenerated w;
               sendCalls := S (sendCalls w);
               trace := trace w ++ [EvSend tx signers options] |}).

(** The [while (retries > 0)] loop of [_createAccountBatch]. *)
Fixpoint submitWithRetries (retries : nat) (tx : Transaction)
         (signers : list Keypair) : Async unit :=
  match retries with
  | O => ret tt
  | S retries' =>
      tryCatch
        (sendAndConfirmTransaction tx signers (Some "confirmed"))
        (fun _ => ret tt)
        (fun err =>
           match retries' with
           | O => throw "Couldn't confirm transaction"
           | S _ =>
               (emit (EvConsoleError
                        (String.append
                           "Failed to create , retries remaining: "
                           (string_of_nat retries'))) ;;
                submitWithRetries retries' tx signers)%async
           end)
  end.

(** The instructions added for the [i]-th pair of a batch.  The
    length check of [_createAccountBatch] makes the two arrays
    line up, so the index loop is a walk over the paired lists. *)
Definition batchInstructions (breakProgramId : PublicKey) (payer : Keypair)
           (costs : AccountCosts) (programpace : Z)
           (pair : Keypair * Keypair) : list Instruction :=
  let (newProgramAccount, newFeePayer) := pair in
  [ CreateAccount (publicKey payer) (publicKey newProgramAccount)
                  (programAccountCost costs) programpace
                  breakProgramId;
    Transfer (publicKey payer) (publicKey newFeePayer)
             (feeAccountCost costs) ].

(** The transaction built by the [for] loop of [_createAccountBatch]. *)
Definition batchTransaction (breakProgramId : PublicKey) (payer : Keypair)
           (costs : AccountCosts)
           (newFeePayers newProgram : list Keypair)
           (programpace : Z) : Transaction :=
  flat_map (batchInstructions breakProgramId payer costs programpace)
           (combine newProgram newFeePayers).

Definition _createAccountBatch (breakProgramId : PublicKey)
           (payer : Keypair) (costs : AccountCosts)
           (newFeePayers newProgram : list Keypair)
           (programpace : Z) : Async unit :=
  let batchSize := List.length newProgram in
  if negb (Nat.eqb batchSize (List.length newFeePayers)) then
    throw "Internal error"
  else
    let tx := batchTransaction breakProgramId payer costs
                               newFeePayers newProgram
                               programpace in
    submitWithRetries 3 tx (payer :: newProgram).

(** [Array(n).fill(0).map(() => new Keypair())] *)
Fixpoint generateKeypairs (n : nat) : Async (list Keypair) :=
  match n with
  | O => ret []
  | S n' => (k <- newKeypair ;; ks <- generateKeypairs n' ;; ret (k :: ks))%async
  end.

Definition BATCH_SIZE : Z := 5.

(** The [while (accountIndex < parallelization)] loop of [_create]. *)
Equations createBatches (breakProgramId : PublicKey) (payer : Keypair)
          (costs : AccountCosts) (parallelization : Z)
          (feePayers program : list Keypair)
          (programpace : Z) (accountIndex : Z) : Async unit
  by wf (Z.to_nat (parallelization - accountIndex)) lt :=
  createBatches breakProgramId payer costs parallelization
                feePayers program programpace accountIndex
    with Z_lt_dec accountIndex parallelization := {
    | left _ =>
        bind (_createAccountBatch breakProgramId payer costs
                (slice feePayers accountIndex (accountIndex + BATCH_SIZE))
                (slice program accountIndex (accountIndex + BATCH_SIZE))
                programpace)
             (fun _ =>
                createBatches breakProgramId payer costs parallelization
                              feePayers program programpace
                              (accountIndex + BATCH_SIZE))
    | right _ => ret tt }.
Next Obligation. unfold BATCH_SIZE. lia. Qed.

(** [Array(parallelization)] throws a [RangeError] for a negative
    length, which is modelled, and for a length of [2^32] or more,
    which is not: lists have no largest length.  A property of
    [_create] that holds only below that bound says so, or assumes that
    [getFeePayers] returned [parallelization] keypairs, which an array
    can only do below it. *)
Definition _create (breakProgramId : PublicKey) (payer : Keypair)
           (costs : AccountCosts) (parallelization : Z) : Async Config :=
  let programpace := calculateProgrampace parallelization in
  let feePayers := getFeePayers parallelization in
  if parallelization <? 0 then throw "Invalid array length" else
  (program <- generateKeypairs (Z.to_nat parallelization) ;;
   createBatches breakProgramId payer costs parallelization
                 feePayers program programpace 0 ;;
   let txPerAccount := calculateTransactionsPerAccount programpace in
   ret {| accountCapacity := txPerAccount;
          feePayerKeypairs := feePayers;
          program := map publicKey program |})%async.

(** [Promise.all]: the values in order, or the first rejection. *)
Fixpoint promiseAll {A} (ps : list (Result A)) : Result (list A) :=
  match ps with
  | [] => Ok []
  | p :: ps' =>
      match p with
      | Throw e => Throw e
      | Ok v => andThen (promiseAll ps') (fun vs => Ok (v :: vs))
      end
  end.

Definition _close (connection : Connection) (payer : Keypair)
           (parallelization : Z) : Async unit :=
  let feePayers := getFeePayers parallelization in
  (balances <- liftResult
                 (promiseAll
                    (map (fun feePayer =>
                            getBalance connection (publicKey feePayer))
                         feePayers)) ;;
   let tx := map (fun fb : Keypair * Z =>
                    Transfer (publicKey (fst fb)) (publicKey payer) (snd fb))
                 (combine feePayers balances) in
   sendAndConfirmTransaction tx (payer :: feePayers) None)%async.

End Provisioning.

(** ** The provider: React state, refs and callbacks *)

Record State := mkState {
  costs : option AccountCosts;      (* useState<AccountCosts>() *)
  status : Status;                  (* useState<Status>("initializing") *)
  accounts : option Config;         (* useState<Config>(), the pool config *)
  creationLock : bool;              (* useRef(false) *)
  calculationCounter : Z            (* useRef(0) *)
}.

Definition initialState : State :=
  {| costs := None; status := initializing; accounts := None;
     creationLock := false; calculationCounter := 0 |}.

(** What a callback created by one render closes over: the hook values
    of that render.  The two refs are not part of it, they are read
    from the [State] at the time of the call. *)
Record Render := mkRender {
  r_connection : option Connection;
  r_breakProgramId : option PublicKey;
  r_wallet : option Keypair;
  r_costs : option AccountCosts;
  r_status : Status;
  r_parallelization : Z
}.

(** The hook values that come from outside the provider. *)
Record Props := mkProps {
  p_connection : option Connection;
  p_breakProgramId : option PublicKey;
  p_wallet : option Keypair;
  p_parallelization : Z
}.

(** The render of the provider in state [st]. *)
Definition render (p : Props) (st : State) : Render :=
  {| r_connection := p_connection p;
     r_breakProgramId := p_breakProgramId p;
     r_wallet := p_wallet p;
     r_costs := costs st;
     r_status := status st;
     r_parallelization := p_parallelization p |}.

Definition setCosts (c : option AccountCosts) (st : State) : State :=
  {| costs := c; status := status st; accounts := accounts st;
     creationLock := creationLock st;
     calculationCounter := calculationCounter st |}.

Definition setStatus (s : Status) (st : State) : State :=
  {| costs := costs st; status := s; accounts := accounts st;
     creationLock := creationLock st;
     calculationCounter := calculationCounter st |}.

Definition setAccounts (a : option Config) (st : State) : State :=
  {| costs := costs st; status := status st; accounts := a;
     creationLock := creationLock st;
     calculationCounter := calculationCounter st |}.

Definition setCreationLock (b : bool) (st : State) : State :=
  {| costs := costs st; status := status st; accounts := accounts st;
     creationLock := b;
     calculationCounter := calculationCounter st |}.

Definition setCalculationCounter (n : Z) (st : State) : State :=
  {| costs := costs st; status := status st; accounts := accounts st;
     creationLock := creationLock st;
     calculationCounter := n |}.

(** *** The cost effect *)

(** The synchronous part of the effect, run at mount and whenever the
    connection or the parallelization changes.  It returns the counter
    value the background loop saves, when a loop is started. *)
Definition effectStart (connection : option Connection) (st : State)
  : State * option Z :=
  let st := setCalculationCounter (calculationCounter st + 1) st in
  let st := setStatus initializing st in
  let st := setAccounts None st in
  match connection with
  | None => (st, None)
  | Some _ => (st, Some (calculationCounter st))
  end.

(** One turn of the [while (true)] loop, from the point where
    [calculateCosts] has settled with [r].  The boolean tells whether
    the loop has returned. *)
Definition costIteration (savedCounter : Z) (r : Result AccountCosts)
           (st : State) : State * list Event * bool :=
  match r with
  | Ok accountCosts =>
      if calculationCounter st =? savedCounter then
        let st := setCosts (Some accountCosts) st in
        let st := setStatus (match status st with
                             | initializing => inactive
                             | s => s
                             end) st in
        (st, [], true)
      else (st, [], true)
  | Throw err =>
      (st, [EvConsoleError "Failed to calculate account costs, retrying";
            EvSleep 2000], false)
  end.

(** *** deactivate, close, create *)

Definition deactivate (st : State) : State :=
  if negb (creationLock st) then setStatus inactive st else st.

(** How a call of [close] or [create] ends its synchronous part. *)
Inductive CallOutcome :=
| Rejected (err : Error)          (* the returned promise rejects *)
| Returned (log : list Event)     (* it resolves, nothing was started *)
| Started.                        (* suspended at the [await] *)

Definition closeStart (r : Render) (st : State) : CallOutcome * State :=
  match r_connection r with
  | None => (Rejected "Can't close  until connection is valid", st)
  | Some connection =>
      match r_wallet r with
      | None => (Rejected "Can't create  if wallet is not setup", st)
      | Some wallet =>
          if creationLock st then
            (Returned [EvConsoleWarn "Account closing is locked"], st)
          else if Status_eqb (r_status r) inactive then
            let st := setCreationLock true st in
            let st := setStatus closing st in
            (Started, st)
          else (Returned [], st)
      end
  end.

(** The [finally] block of [close], entered when [_close] has settled
    with [result]; the promise of [close] settles the same way. *)
Definition closeFinish (result : Result unit) (st : State)
  : Result unit * list Event * State :=
  let st := setStatus inactive st in
  let st := setCreationLock false st in
  (result, [], st).

Definition createStart (r : Render) (st : State) : CallOutcome * State :=
  match r_connection r with
  | None => (Rejected "Invalid connection", st)
  | Some connection =>
      match r_breakProgramId r with
      | None => (Rejected "Missing break program id", st)
      | Some breakProgramId =>
          match r_wallet r with
          | None => (Rejected "Missing wallet", st)
          | Some wallet =>
              match r_costs r with
              | None => (Rejected "Calculating costs", st)
              | Some costs =>
                  if creationLock st then
                    (Returned [EvConsoleWarn "Account creation is locked"], st)
                  else if Status_eqb (r_status r) inactive then
                    let st := setCreationLock true st in
                    let st := setStatus creating st in
                    (Started, st)
                  else
                    (Returned
                       [EvConsoleWarn
                          "Account creation requires inactive status"], st)
              end
          end
      end
  end.

(** The rest of the [try] block, the [catch] and the [finally] of
    [create], entered when [_create] has settled with [result]. *)
Definition createFinish (result : Result Config) (st : State)
  : Result unit * list Event * State :=
  match result with
  | Ok newAccounts =>
      let st := setAccounts (Some newAccounts) st in
      let st := setStatus active st in
      let st := setCreationLock false st in
      (Ok tt, [], st)
  | Throw err =>
      let st := setAccounts None st in
      let st := setStatus inactive st in
      let st := setCreationLock false st in
      (Ok tt, [EvConsoleError "Failed to create "], st)
  end.

(** *** A call run to completion

    [create] and [close] from the call to the settlement of the
    returned promise, when nothing else touches the provider while the
    call is suspended. *)

Definition logAll (log : list Event) (w : World) : World :=
  {| keysGenerated := keysGenerated w;
     sendCalls := sendCalls w;
     trace := trace w ++ log |}.

Definition create (keygen : nat -> Keypair) (network : nat -> Result unit)
           (getFeePayers : Z -> list Keypair)
           (r : Render) (st : State) (w : World)
  : Result unit * State * World :=
  let (outcome, st1) := createStart r st in
  match outcome with
  | Rejected e => (Throw e, st1, w)
  | Returned log => (Ok tt, st1, logAll log w)
  | Started =>
      match r_breakProgramId r, r_wallet r, r_costs r with
      | Some breakProgramId, Some wallet, Some costs =>
          let (result, w1) :=
            _create keygen network getFeePayers breakProgramId wallet costs
                    (r_parallelization r) w in
          let '(settled, log, st2) := createFinish result st1 in
          (settled, st2, logAll log w1)
      | _, _, _ => (Ok tt, st1, w)   (* [Started] has all three defined *)
      end
  end.

Definition close (network : nat -> Result unit)
           (getFeePayers : Z -> list Keypair)
           (r : Render) (st : State) (w : World)
  : Result unit * State * World :=
  let (outcome, st1) := closeStart r st in
  match outcome with
  | Rejected e => (Throw e, st1, w)
  | Returned log => (Ok tt, st1, logAll log w)
  | Started =>
      match r_connection r, r_wallet r with
      | Some connection, Some wallet =>
          let (result, w1) :=
            _close network getFeePayers connection wallet
                   (r_parallelization r) w in
          let '(settled, log, st2) := closeFinish result st1 in
          (settled, st2, logAll log w1)
      | _, _ => (Ok tt, st1, w)      (* [Started] has both defined *)
      end
  end.

(** ** The provider as a transition system

    Calls and completions interleave at the [await]s.  A [System] is
    the provider state together with the suspended work: the [create]
    and [close] calls waiting for [_create] / [_close], and the saved
    counters of the cost loops that are still running. *)

Inductive Op := OpCreate | OpClose.

Definition Op_eqb (a b : Op) : bool :=
  match a, b with
  | OpCreate, OpCreate | OpClose, OpClose => true
  | _, _ => false
  end.

Record System := mkSystem {
  provider : State;
  inFlight : list Op;
  costLoops : list Z
}.

Definition initialSystem : System :=
  {| provider := initialState; inFlight := []; costLoops := [] |}.

Inductive Action :=
| RunEffect (connection : option Connection)
| CostSettles (savedCounter : Z) (r : Result AccountCosts)
| Deactivate
| CallCreate (r : Render)
| CreateSettles (result : Result Config)
| CallClose (r : Render)
| CloseSettles (result : Result unit).

Fixpoint removeOp (o : Op) (l : list Op) : list Op :=
  match l with
  | [] => []
  | x :: l' => if Op_eqb o x then l' else x :: removeOp o l'
  end.

Fixpoint removeLoop (n : Z) (l : list Z) : list Z :=
  match l with
  | [] => []
  | x :: l' => if n =? x then l' else x :: removeLoop n l'
  end.

Definition hasOp (o : Op) (l : list Op) : bool := existsb (Op_eqb o) l.

Definition hasLoop (n : Z) (l : list Z) : bool := existsb (Z.eqb n) l.

(** One transition; [None] when the action cannot happen in [s]
    (nothing of that kind is suspended). *)
Definition step (a : Action) (s : System) : option System :=
  match a with
  | RunEffect connection =>
      let (st, saved) := effectStart connection (provider s) in
      Some {| provider := st;
              inFlight := inFlight s;
              costLoops := match saved with
                           | Some n => n :: costLoops s
                           | None => costLoops s
                           end |}
  | CostSettles savedCounter r =>
      if hasLoop savedCounter (costLoops s) then
        let '(st, _, finished) := costIteration savedCounter r (provider s) in
        Some {| provider := st;
                inFlight := inFlight s;
                costLoops := if finished
                             then removeLoop savedCounter (costLoops s)
                             else costLoops s |}
      else None
  | Deactivate =>
      Some {| provider := deactivate (provider s);
              inFlight := inFlight s;
              costLoops := costLoops s |}
  | CallCreate r =>
      let (outcome, st) := createStart r (provider s) in
      Some {| provider := st;
              inFlight := match outcome with
                          | Started => OpCreate :: inFlight s
                          | _ => inFlight s
                          end;
              costLoops := costLoops s |}
  | CreateSettles result =>
      if hasOp OpCreate (inFlight s) then
        let '(_, _, st) := createFinish result (provider s) in
        Some {| provider := st;
                inFlight := removeOp OpCreate (inFlight s);
                costLoops := costLoops s |}
      else None
  | CallClose r =>
      let (outcome, st) := closeStart r (provider s) in
      Some {| provider := st;
              inFlight := match outcome with
                          | Started => OpClose :: inFlight s
                          | _ => inFlight s
                          end;
              costLoops := costLoops s |}
  | CloseSettles result =>
      if hasOp OpClose (inFlight s) then
        let '(_, _, st) := closeFinish result (provider s) in
        Some {| provider := st;
                inFlight := removeOp OpClose (inFlight s);
                costLoops := costLoops s |}
      else None
  end.

Fixpoint run (acts : list Action) (s : System) : option System :=
  match acts with
  | [] => Some s
  | a :: acts' =>
      match step a s with
      | Some s' => run acts' s'
      | None => None
      end
  end.

Definition reachable (s : System) : Prop :=
  exists acts, run acts initialSystem = Some s.

(** ** The storage size in IEEE binary64

    [1000 / parallelization / TX_PER_BYTE] as JavaScript evaluates it:
    two correctly rounded double divisions, then [Math.ceil]. *)

Module Double.

Definition prec : Z := 53.
Definition emax : Z := 1024.

Definition ofZ (z : Z) : spec_float := binary_normalize prec emax z 0 false.

Definition div (x y : spec_float) : spec_float := SFdiv prec emax x y.

(** [Math.ceil] of a finite double, as an integer. *)
Definition ceil (x : spec_float) : option Z :=
  match x with
  | S754_zero _ => Some 0
  | S754_finite s m e =>
      let v := if s then Z.neg m else Z.pos m in
      Some (if 0 <=? e then v * 2 ^ e else - ((- v) / 2 ^ (- e)))
  | S754_infinity _ | S754_nan => None
  end.

Definition calculateProgrampace64 (parallelization : Z) : option Z :=
  ceil (div (div (ofZ 1000) (ofZ parallelization)) (ofZ TX_PER_BYTE)).

Definition agreeAt (p : Z) : bool :=
  match calculateProgrampace64 p with
  | Some v => v =? calculateProgrampace p
  | None => false
  end.

(** The doubles and the rationals agree on [p, p+1, .., p+count-1]. *)
Fixpoint agreeFrom (p : Z) (count : nat) : bool :=
  match count with
  | O => true
  | S count' => agreeAt p && agreeFrom (p + 1) count'
  end.

End Double.

(** ** Vocabulary of the statements *)

Definition isSleep (ev : Event) : bool :=
  match ev with EvSleep _ => true | _ => false end.

(** No event of [evs] is a delay. *)
Definition noDelay (evs : list Event) : Prop :=
  forallb (fun ev => negb (isSleep ev)) evs = true.

(** The line logged when an attempt failed and [retries] remain. *)
Definition retryMessage (retries : nat) : Event :=
  EvConsoleError (String.append "Failed to create , retries remaining: "
                                (string_of_nat retries)).

(** The world after one more [sendAndConfirmTransaction] of a batch. *)
Definition sent (tx : Transaction) (signers : list Keypair) (w : World)
  : World :=
  {| keysGenerated := keysGenerated w;
     sendCalls := S (sendCalls w);
     trace := trace w ++ [EvSend tx signers (Some "confirmed")] |}.

Definition logged (ev : Event) (w : World) : World :=
  {| keysGenerated := keysGenerated w;
     sendCalls := sendCalls w;
     trace := trace w ++ [ev] |}.

(** A batch: the (program account, fee payer) pairs of one transaction. *)
Definition Batch := list (Keypair * Keypair).

(** The submission of one batch, as it shows in the trace. *)
Definition batchSend (breakProgramId : PublicKey) (payer : Keypair)
           (costs : AccountCosts) (space : Z) (b : Batch) : Event :=
  EvSend (flat_map (batchInstructions breakProgramId payer costs space) b)
         (payer :: map fst b) (Some "confirmed").

(** Every batch but the last holds exactly 5 pairs. *)
Fixpoint fullExceptLast {A} (batches : list (list A)) : bool :=
  match batches with
  | [] => true
  | b :: rest =>
      match rest with
      | [] => true
      | _ :: _ => (List.length b =? 5)%nat && fullExceptLast rest
      end
  end.

(** The lock is held exactly while one call is suspended. *)
Definition gateInvariant (s : System) : Prop :=
  (creationLock (provider s) = false /\ inFlight s = [])
  \/ (creationLock (provider s) = true /\ exists o, inFlight s = [o]).

(** ** Sample inputs *)

Definition sampleConnection : Connection :=
  {| getMinimumBalanceForRentExemption := fun n => Ok (890880 + 6960 * n);
     getRecentBlockhash := Ok 5000;
     getBalance := fun _ => Ok 0 |}.

Definition sampleKeygen (n : nat) : Keypair :=
  {| publicKey := PK (Z.of_nat n); secretKey := Z.of_nat n |}.

Definition sampleFeePayers (parallelization : Z) : list Keypair :=
  map (fun i => {| publicKey := PK (-1000 - Z.of_nat i);
                   secretKey := -1000 - Z.of_nat i |})
      (seq 0 (Z.to_nat parallelization)).

Definition samplePayer : Keypair := {| publicKey := PK (-1); secretKey := -1 |}.

Definition sampleProgramId : PublicKey := PK (-2).

Definition sampleCosts : AccountCosts :=
  {| total := 4 * (1113600 + 2170880);
     feeAccountCost := 2170880;
     programAccountCost := 1113600 |}.

Definition emptyWorld : World :=
  {| keysGenerated := 0; sendCalls := 0; trace := [] |}.

Definition networkDown : nat -> Result unit := fun _ => Throw "timeout".

Definition networkUp : nat -> Result unit := fun _ => Ok tt.

Definition sampleProps : Props :=
  {| p_connection := Some sampleConnection;
     p_breakProgramId := Some sampleProgramId;
     p_wallet := Some samplePayer;
     p_parallelization := 4 |}.

(** The provider once the costs are known and nothing is going on. *)
Definition idleState : State :=
  {| costs := Some sampleCosts; status := inactive; accounts := None;
     creationLock := false; calculationCounter := 1 |}.

(** The hook values while the server configuration is still loading. *)
Definition loadingProps : Props :=
  {| p_connection := Some sampleConnection;
     p_breakProgramId := None;
     p_wallet := Some samplePayer;
     p_parallelization := 4 |}.

(** The provider while a [close] is suspended. *)
Definition closingState : State :=
  {| costs := Some sampleCosts; status := closing; accounts := None;
     creationLock := true; calculationCounter := 1 |}.

(** ** Reading a transaction *)

Definition instructionLamports (i : Instruction) : Z :=
  match i with
  | CreateAccount _ _ lamports _ _ => lamports
  | Transfer _ _ lamports => lamports
  end.

(** The lamports a transaction moves out of its funding accounts. *)
Definition transactionLamports (tx : Transaction) : Z :=
  fold_right (fun i acc => instructionLamports i + acc) 0 tx.

(** The accounts a transaction creates, in instruction order. *)
Definition createdAccounts (tx : Transaction) : list PublicKey :=
  flat_map (fun i => match i with
                     | CreateAccount _ newAccountPubkey _ _ _ =>
                         [newAccountPubkey]
                     | Transfer _ _ _ => []
                     end) tx.

(** The recipients of the transfers of a transaction, in order. *)
Definition fundedAccounts (tx : Transaction) : list PublicKey :=
  flat_map (fun i => match i with
                     | CreateAccount _ _ _ _ _ => []
                     | Transfer _ toPubkey _ => [toPubkey]
                     end) tx.

Definition isSend (ev : Event) : bool :=
  match ev with EvSend _ _ _ => true | _ => false end.

(** The lamports moved by the transactions submitted in a trace. *)
Definition traceLamports (evs : list Event) : Z :=
  fold_right (fun ev acc => match ev with
                            | EvSend tx _ _ => transactionLamports tx + acc
                            | _ => acc
                            end) 0 evs.

Definition sumZ (l : list Z) : Z := fold_right Z.add 0 l.

(** The accounts the transfers of a transaction take lamports from. *)
Definition transferSources (tx : Transaction) : list PublicKey :=
  flat_map (fun i => match i with
                     | CreateAccount _ _ _ _ _ => []
                     | Transfer fromPubkey _ _ => [fromPubkey]
                     end) tx.

(** The accounts created, and the accounts funded, by the transactions
    submitted in a trace. *)
Definition traceCreated (evs : list Event) : list PublicKey :=
  flat_map (fun ev => match ev with
                      | EvSend tx _ _ => createdAccounts tx
                      | _ => []
                      end) evs.

Definition traceFunded (evs : list Event) : list PublicKey :=
  flat_map (fun ev => match ev with
                      | EvSend tx _ _ => fundedAccounts tx
                      | _ => []
                      end) evs.

(** ** More sample inputs *)

(** A connection whose every query fails. *)
Definition deafConnection : Connection :=
  {| getMinimumBalanceForRentExemption := fun _ => Throw "unreachable";
     getRecentBlockhash := Throw "unreachable";
     getBalance := fun _ => Throw "unreachable" |}.

(** The provider holding a pool. *)
Definition activeState : State :=
  {| costs := Some sampleCosts;
     status := active;
     accounts := Some {| program := [PK 0; PK 1];
                         feePayerKeypairs := sampleFeePayers 2;
                         accountCapacity := 504 |};
     creationLock := false;
     calculationCounter := 1 |}.

(** ** Invariants of the transition system *)

(** What the status tells about the suspended calls and the config. *)
Definition statusInvariant (s : System) : Prop :=
  (status (provider s) = creating -> inFlight s = [OpCreate])
  /\ (status (provider s) = closing -> inFlight s = [OpClose])
  /\ (status (provider s) = active -> accounts (provider s) <> None).

(** The running cost loops were started at distinct generations, none
    later than the current one. *)
Definition loopsInvariant (s : System) : Prop :=
  NoDup (costLoops s)
  /\ Forall (fun n => n <= calculationCounter (provider s)) (costLoops s)
  /\ 0 <= calculationCounter (provider s).

(** * Properties *)

(** ** Cost estimation *)

(** The storage size is the ceiling of [1000 / (8 * P)]: the least
    integer [n] with [1000 <= 8 * P * n]. *)
Lemma space_is_ceiling (P : Z) :
  1 <= P ->
  8 * P * (calculateProgrampace P - 1) < 1000
    <= 8 * P * calculateProgrampace P.
Proof.
  intros HP. unfold calculateProgrampace, TX_PER_BYTE.
  destruct P as [|p|p]; try lia.
  set (x := (inject_Z 1000 / inject_Z (Z.pos p) / inject_Z 8)%Q).
  pose proof (Qle_ceiling x) as Hle.
  pose proof (Qceiling_lt x) as Hlt.
  unfold Qle, Qlt, x in Hle, Hlt. cbn in Hle, Hlt.
  rewrite Pos2Z.inj_mul in Hle, Hlt. subst x. lia.
Qed.

Lemma space_closed_form (P : Z) :
  1 <= P -> calculateProgrampace P = (1000 + 8 * P - 1) / (8 * P).
Proof.
  intros HP. pose proof (space_is_ceiling P HP) as [Hlo Hhi].
  apply Z.div_unique with (r := 1000 + 8 * P - 1
                      - 8 * P * calculateProgrampace P); lia.
Qed.

Lemma space_positive (P : Z) : 1 <= P -> 1 <= calculateProgrampace P.
Proof. intros HP. pose proof (space_is_ceiling P HP). nia. Qed.

Lemma agreeFrom_sound (count : nat) : forall p P : Z,
  Double.agreeFrom p count = true ->
  p <= P < p + Z.of_nat count ->
  Double.calculateProgrampace64 P = Some (calculateProgrampace P).
Proof.
  induction count as [|count IH]; intros p P Hall HP; [lia|].
  cbn [Double.agreeFrom] in Hall. apply andb_true_iff in Hall as [Hp Hrest].
  destruct (Z.eq_dec P p) as [->|Hne].
  - unfold Double.agreeAt in Hp.
    destruct (Double.calculateProgrampace64 p) as [v|]; [|discriminate].
    apply Z.eqb_eq in Hp. now subst.
  - apply (IH (p + 1)); [assumption|lia].
Qed.

(** On every parallelization from 1 to 4096 the double-precision
    evaluation of the storage size is finite and equals the exact one. *)
Lemma double_space_agrees (P : Z) :
  1 <= P <= 4096 ->
  Double.calculateProgrampace64 P = Some (calculateProgrampace P).
Proof.
  intros HP. apply (agreeFrom_sound (Z.to_nat 4096) 1).
  - vm_compute. reflexivity.
  - lia.
Qed.

(** C1. For every parallelization [P >= 1], when the three ledger
    queries answer, [calculateCosts] returns the costs computed from
    [storageUnits = ceil (1000 / P / 8)] (the least [n] with
    [1000 <= 8 * P * n]) and [txPerAccount = 8 * storageUnits]:
    [programAccountCost] is the rent-exemption minimum for
    [storageUnits] bytes, [feeAccountCost] is
    [txPerAccount * signatureFee] plus the rent-exemption minimum for 0
    bytes, and [total = P * (programAccountCost + feeAccountCost)].
    For [P = 4], [storageUnits = 32] and [txPerAccount = 256]. *)
Theorem calculateCosts_spec (connection : Connection)
        (P rentSpace rentZero signatureFee : Z) :
  1 <= P ->
  let storageUnits := calculateProgrampace P in
  let txPerAccount := calculateTransactionsPerAccount storageUnits in
  getMinimumBalanceForRentExemption connection storageUnits = Ok rentSpace ->
  getMinimumBalanceForRentExemption connection 0 = Ok rentZero ->
  getRecentBlockhash connection = Ok signatureFee ->
  (8 * P * (storageUnits - 1) < 1000 <= 8 * P * storageUnits)
  /\ txPerAccount = 8 * storageUnits
  /\ (exists c, calculateCosts connection P = Ok c
        /\ programAccountCost c = rentSpace
        /\ feeAccountCost c = txPerAccount * signatureFee + rentZero
        /\ total c = P * (programAccountCost c + feeAccountCost c))
  /\ calculateProgrampace 4 = 32
  /\ calculateTransactionsPerAccount (calculateProgrampace 4) = 256.
Proof.
  intros HP storageUnits txPerAccount Hspace Hzero Hfee.
  split; [exact (space_is_ceiling P HP)|].
  split; [reflexivity|].
  split; [|split; reflexivity].
  unfold calculateCosts. fold storageUnits.
  rewrite Hspace. cbn [andThen]. rewrite Hzero. cbn [andThen].
  rewrite Hfee. cbn [andThen]. fold txPerAccount.
  eexists. split; [reflexivity|]. cbn. auto.
Qed.

Lemma calculateCosts_spec_witness :
  calculateCosts sampleConnection 4
  = Ok {| total := 4 * (1113600 + 2170880);
          feeAccountCost := 2170880;
          programAccountCost := 1113600 |}.
Proof.
  destruct (calculateCosts_spec sampleConnection 4 1113600 890880 5000)
    as (_ & _ & (c & Hc & Hp & Hf & Ht) & _);
    [lia | reflexivity | reflexivity | reflexivity |].
  rewrite Hc. destruct c as [t f p]. cbn in Hp, Hf, Ht. subst. reflexivity.
Defined.

(** ** Bounded retry of one batch *)

Section Retry.

Variable network : nat -> Result unit.
Variables (tx : Transaction) (signers : list Keypair).

Lemma submit_ok (retries : nat) (w : World) :
  network (sendCalls w) = Ok tt ->
  submitWithRetries network (S retries) tx signers w
  = (Ok tt, sent tx signers w).
Proof.
  intros H. cbn [submitWithRetries].
  unfold tryCatch, sendAndConfirmTransaction. rewrite H. reflexivity.
Qed.

Lemma submit_last_failure (w : World) (e : Error) :
  network (sendCalls w) = Throw e ->
  submitWithRetries network 1 tx signers w
  = (Throw "Couldn't confirm transaction", sent tx signers w).
Proof.
  intros H. cbn [submitWithRetries].
  unfold tryCatch, sendAndConfirmTransaction. rewrite H. reflexivity.
Qed.

Lemma submit_failure (retries : nat) (w : World) (e : Error) :
  network (sendCalls w) = Throw e ->
  submitWithRetries network (S (S retries)) tx signers w
  = submitWithRetries network (S retries) tx signers
      (logged (retryMessage (S retries)) (sent tx signers w)).
Proof.
  intros H.
  change (submitWithRetries network (S (S retries)) tx signers w)
    with (tryCatch
            (sendAndConfirmTransaction network tx signers (Some "confirmed"))
            (fun _ => ret tt)
            (fun err =>
               (emit (retryMessage (S retries)) ;;
                submitWithRetries network (S retries) tx signers)%async) w).
  unfold tryCatch, sendAndConfirmTransaction. rewrite H. reflexivity.
Qed.

Lemma isOk_false {A} (r : Result A) : isOk r = false -> exists e, r = Throw e.
Proof. destruct r; [discriminate|eauto]. Qed.

(** With [retries >= 1] attempts allowed and every one of them
    failing, exactly [retries] sends are made, back to back. *)
Lemma submitWithRetries_fails :
  forall (retries : nat) (w : World),
    (forall j, (j < retries)%nat ->
               isOk (network (sendCalls w + j)%nat) = false) ->
    (1 <= retries)%nat ->
    exists evs,
      submitWithRetries network retries tx signers w
      = (Throw "Couldn't confirm transaction",
         {| keysGenerated := keysGenerated w;
            sendCalls := (sendCalls w + retries)%nat;
            trace := trace w ++ evs |})
      /\ noDelay evs.
Proof.
  induction retries as [|retries IH]; intros w Hfail Hpos; [lia|].
  destruct (isOk_false _ (Hfail 0%nat ltac:(lia))) as [e He].
  rewrite Nat.add_0_r in He.
  destruct retries as [|retries'].
  - rewrite (submit_last_failure w e He). eexists. split.
    + unfold sent. rewrite Nat.add_1_r. reflexivity.
    + reflexivity.
  - rewrite (submit_failure retries' w e He).
    edestruct (IH (logged (retryMessage (S retries')) (sent tx signers w)))
      as (evs & Heq & Hns).
    + intros j Hj. cbn [sendCalls logged sent].
      specialize (Hfail (S j) ltac:(lia)).
      now rewrite Nat.add_succ_r in Hfail.
    + lia.
    + rewrite Heq. cbn [keysGenerated sendCalls trace logged sent].
      exists (EvSend tx signers (Some "confirmed")
                :: retryMessage (S retries') :: evs).
      split.
      * rewrite <- !app_assoc. cbn [app].
        replace (S (sendCalls w) + S retries')%nat
          with (sendCalls w + S (S retries'))%nat by lia.
        reflexivity.
      * exact Hns.
Qed.

(** When the first success is at attempt [k] (counted from 0), the
    loop stops there: [k + 1] sends, back to back. *)
Lemma submitWithRetries_succeeds :
  forall (k retries : nat) (w : World),
    (k < retries)%nat ->
    (forall j, (j < k)%nat -> isOk (network (sendCalls w + j)%nat) = false) ->
    network (sendCalls w + k)%nat = Ok tt ->
    exists evs,
      submitWithRetries network retries tx signers w
      = (Ok tt,
         {| keysGenerated := keysGenerated w;
            sendCalls := (sendCalls w + S k)%nat;
            trace := trace w ++ evs |})
      /\ noDelay evs.
Proof.
  induction k as [|k IH]; intros retries w Hk Hfail Hok.
  - destruct retries as [|retries]; [lia|].
    rewrite Nat.add_0_r in Hok. rewrite (submit_ok retries w Hok).
    eexists. split.
    + unfold sent. rewrite Nat.add_1_r. reflexivity.
    + reflexivity.
  - destruct retries as [|[|retries]]; [lia|lia|].
    destruct (isOk_false _ (Hfail 0%nat ltac:(lia))) as [e He].
    rewrite Nat.add_0_r in He.
    rewrite (submit_failure retries w e He).
    edestruct (IH (S retries)
                  (logged (retryMessage (S retries)) (sent tx signers w)))
      as (evs & Heq & Hns).
    + lia.
    + intros j Hj. cbn [sendCalls logged sent].
      specialize (Hfail (S j) ltac:(lia)).
      now rewrite Nat.add_succ_r in Hfail.
    + cbn [sendCalls logged sent]. now rewrite Nat.add_succ_r in Hok.
    + rewrite Heq. cbn [keysGenerated sendCalls trace logged sent].
      exists (EvSend tx signers (Some "confirmed")
                :: retryMessage (S retries) :: evs).
      split.
      * rewrite <- !app_assoc. cbn [app].
        replace (S (sendCalls w) + S k)%nat
          with (sendCalls w + S (S k))%nat by lia.
        reflexivity.
      * exact Hns.
Qed.

End Retry.

Lemma createAccountBatch_checked (network : nat -> Result unit)
      (breakProgramId : PublicKey) (payer : Keypair) (costs : AccountCosts)
      (newFeePayers newProgram : list Keypair) (space : Z) :
  List.length newProgram = List.length newFeePayers ->
  _createAccountBatch network breakProgramId payer costs
                      newFeePayers newProgram space
  = submitWithRetries network 3
      (batchTransaction breakProgramId payer costs
                        newFeePayers newProgram space)
      (payer :: newProgram).
Proof.
  intros Hlen. unfold _createAccountBatch.
  rewrite Hlen, Nat.eqb_refl. reflexivity.
Qed.

(** C4. A batch whose [sendAndConfirmTransaction] always fails is sent
    exactly 3 times, with nothing but the two log lines between the
    sends (no delay), and then [_createAccountBatch] rejects with
    "Couldn't confirm transaction"; when the attempt number [k] (0, 1
    or 2) is the first to succeed, the batch resolves after exactly
    [k + 1] sends, again without delay. *)
Theorem createAccountBatch_retry_bound (network : nat -> Result unit)
        (breakProgramId : PublicKey) (payer : Keypair) (costs : AccountCosts)
        (newFeePayers newProgram : list Keypair) (space : Z)
        (w : World) :
  List.length newProgram = List.length newFeePayers ->
  let tx := batchTransaction breakProgramId payer costs
                             newFeePayers newProgram space in
  let attempt := EvSend tx (payer :: newProgram) (Some "confirmed") in
  let result := _createAccountBatch network breakProgramId payer costs
                                    newFeePayers newProgram space w in
  ((forall n, isOk (network n) = false) ->
   fst result = Throw "Couldn't confirm transaction"
   /\ sendCalls (snd result) = (sendCalls w + 3)%nat
   /\ trace (snd result)
      = trace w ++ [attempt; retryMessage 2; attempt; retryMessage 1; attempt])
  /\ (forall k : nat,
        (k < 3)%nat ->
        (forall j, (j < k)%nat -> isOk (network (sendCalls w + j)%nat) = false) ->
        network (sendCalls w + k)%nat = Ok tt ->
        fst result = Ok tt
        /\ sendCalls (snd result) = (sendCalls w + S k)%nat
        /\ exists evs, trace (snd result) = trace w ++ evs /\ noDelay evs).
Proof.
  intros Hlen tx attempt result. subst result.
  rewrite (createAccountBatch_checked _ _ _ _ _ _ _ Hlen). fold tx.
  split.
  - intros Hdown.
    destruct (isOk_false _ (Hdown (sendCalls w))) as [e0 H0].
    destruct (isOk_false _ (Hdown (S (sendCalls w)))) as [e1 H1].
    destruct (isOk_false _ (Hdown (S (S (sendCalls w))))) as [e2 H2].
    set (signers := payer :: newProgram).
    rewrite (submit_failure network tx signers 1 w e0 H0).
    set (w1 := logged (retryMessage 2) (sent tx signers w)).
    rewrite (submit_failure network tx signers 0 w1 e1 H1).
    set (w2 := logged (retryMessage 1) (sent tx signers w1)).
    rewrite (submit_last_failure network tx signers w2 e2 H2).
    subst w2 w1 signers.
    cbn [fst snd sent logged keysGenerated sendCalls trace].
    repeat split.
    + lia.
    + rewrite <- !app_assoc. reflexivity.
  - intros k Hk Hfail Hok.
    destruct (submitWithRetries_succeeds network tx (payer :: newProgram)
                                         k 3 w Hk Hfail Hok)
      as (evs & Heq & Hns).
    rewrite Heq. cbn [fst snd sendCalls trace]. eauto.
Qed.

Lemma createAccountBatch_retry_bound_witness :
  let result := _createAccountBatch networkDown sampleProgramId samplePayer
                  sampleCosts (sampleFeePayers 2)
                  [sampleKeygen 0; sampleKeygen 1] 63 emptyWorld in
  fst result = Throw "Couldn't confirm transaction"
  /\ sendCalls (snd result) = 3%nat.
Proof.
  destruct (createAccountBatch_retry_bound networkDown sampleProgramId
              samplePayer sampleCosts (sampleFeePayers 2)
              [sampleKeygen 0; sampleKeygen 1] 63 emptyWorld)
    as [Hdown _]; [reflexivity|].
  destruct Hdown as (Hres & Hcalls & _); [intros n; reflexivity|].
  split; [exact Hres | exact Hcalls].
Defined.

(** ** Batching *)

Section ListFacts.
Context {A B : Type}.

Lemma combine_skipn (n : nat) : forall (l : list A) (l' : list B),
  skipn n (combine l l') = combine (skipn n l) (skipn n l').
Proof.
  induction n as [|n IH]; intros [|a l] [|b l']; cbn; auto.
  now destruct (skipn n l).
Qed.

Lemma map_fst_combine : forall (l : list A) (l' : list B),
  List.length l = List.length l' -> map fst (combine l l') = l.
Proof.
  induction l as [|a l IH]; intros [|b l'] H; cbn in *; try congruence.
  f_equal. apply IH. congruence.
Qed.

Lemma slice_length (l : list A) (i j : Z) :
  0 <= i -> i <= j ->
  List.length (slice l i j)
  = Nat.min (Z.to_nat (j - i)) (List.length l - Z.to_nat i).
Proof.
  intros Hi Hj. unfold slice. now rewrite length_firstn, length_skipn.
Qed.

Lemma slice_combine (l : list A) (l' : list B) (i j : Z) :
  combine (slice l i j) (slice l' i j) = slice (combine l l') i j.
Proof. unfold slice. now rewrite combine_skipn, combine_firstn. Qed.

End ListFacts.

Section Batching.

Variable network : nat -> Result unit.
Variables (breakProgramId : PublicKey) (payer : Keypair)
          (costs : AccountCosts) (space : Z).
Variables (parallelization : Z) (feePayers program : list Keypair).

Hypothesis feePayers_length :
  List.length feePayers = Z.to_nat parallelization.
Hypothesis program_length :
  List.length program = Z.to_nat parallelization.

Let pairs : Batch := combine program feePayers.

Lemma pairs_length : List.length pairs = Z.to_nat parallelization.
Proof.
  unfold pairs. rewrite length_combine, feePayers_length,
    program_length. apply Nat.min_id.
Qed.

Lemma slices_same_length (accountIndex : Z) :
  List.length (slice program accountIndex (accountIndex + BATCH_SIZE))
  = List.length (slice feePayers accountIndex (accountIndex + BATCH_SIZE)).
Proof.
  unfold slice. rewrite !length_firstn, !length_skipn.
  now rewrite feePayers_length, program_length.
Qed.

Lemma createAccountBatch_slice_up (accountIndex : Z) (w : World) :
  network (sendCalls w) = Ok tt ->
  _createAccountBatch network breakProgramId payer costs
    (slice feePayers accountIndex (accountIndex + BATCH_SIZE))
    (slice program accountIndex (accountIndex + BATCH_SIZE))
    space w
  = (Ok tt,
     {| keysGenerated := keysGenerated w;
        sendCalls := S (sendCalls w);
        trace := trace w ++
                 [batchSend breakProgramId payer costs space
                    (slice pairs accountIndex (accountIndex + BATCH_SIZE))] |}).
Proof.
  intros Hup.
  rewrite createAccountBatch_checked by apply slices_same_length.
  rewrite (submit_ok _ _ _ 2 w Hup).
  unfold sent, batchSend, batchTransaction, pairs.
  rewrite <- slice_combine.
  rewrite map_fst_combine by apply slices_same_length.
  reflexivity.
Qed.

Lemma createBatches_up :
  (forall n, network n = Ok tt) ->
  forall (fuel : nat) (accountIndex : Z) (w : World),
    0 <= accountIndex ->
    (Z.to_nat (parallelization - accountIndex) <= fuel)%nat ->
    exists batches : list Batch,
      createBatches network breakProgramId payer costs parallelization
                    feePayers program space accountIndex w
      = (Ok tt,
         {| keysGenerated := keysGenerated w;
            sendCalls := (sendCalls w + List.length batches)%nat;
            trace := trace w ++
                     map (batchSend breakProgramId payer costs space)
                         batches |})
      /\ concat batches = skipn (Z.to_nat accountIndex) pairs
      /\ Forall (fun b => (1 <= List.length b <= 5)%nat) batches
      /\ fullExceptLast batches = true
      /\ Z.of_nat (List.length batches)
         = Z.max 0 ((parallelization - accountIndex + 4) / 5).
Proof.
  intros Hup. induction fuel as [|fuel IH]; intros i w Hi Hfuel.
  - exists []. rewrite createBatches_equation_1.
    destruct (Z_lt_dec i parallelization) as [Hlt|Hge]; [lia|].
    rewrite createBatches_clause_1_equation_2. unfold ret.
    rewrite Nat.add_0_r, app_nil_r. cbn [map concat].
    repeat split; auto.
    + destruct w; reflexivity.
    + rewrite skipn_all2; [reflexivity|]. rewrite pairs_length. lia.
    + cbn. Z.div_mod_to_equations. lia.
  - rewrite createBatches_equation_1.
    destruct (Z_lt_dec i parallelization) as [Hlt|Hge].
    + rewrite createBatches_clause_1_equation_1. unfold bind.
      rewrite createAccountBatch_slice_up by apply Hup.
      match goal with
      | |- context [createBatches _ _ _ _ _ _ _ _ _ ?w'] =>
          destruct (IH (i + BATCH_SIZE) w') as (bs & Heq & Hcat & Hall & Hfull & Hlen)
      end; [unfold BATCH_SIZE; lia | unfold BATCH_SIZE; lia |].
      rewrite Heq. cbn [keysGenerated sendCalls trace].
      set (b := slice pairs i (i + BATCH_SIZE)).
      assert (Hb : List.length b = Nat.min 5 (Z.to_nat (parallelization - i))).
      { unfold b. rewrite slice_length by (unfold BATCH_SIZE; lia).
        rewrite pairs_length. unfold BATCH_SIZE.
        replace (Z.to_nat (i + 5 - i)) with 5%nat by lia. lia. }
      exists (b :: bs). repeat split.
      * f_equal. f_equal; [cbn; lia|].
        rewrite <- app_assoc. reflexivity.
      * cbn [concat]. rewrite Hcat. unfold b, slice.
        replace (Z.to_nat (i + BATCH_SIZE - i)) with 5%nat
          by (unfold BATCH_SIZE; lia).
        replace (Z.to_nat (i + BATCH_SIZE)) with (5 + Z.to_nat i)%nat
          by (unfold BATCH_SIZE; lia).
        rewrite <- skipn_skipn. apply firstn_skipn.
      * constructor; [lia|exact Hall].
      * cbn [fullExceptLast]. destruct bs as [|b' bs']; [reflexivity|].
        rewrite Hfull, andb_true_r. apply Nat.eqb_eq.
        cbn [List.length] in Hlen. unfold BATCH_SIZE in Hlen.
        assert (5 < parallelization - i)
          by (Z.div_mod_to_equations; lia).
        lia.
      * cbn [List.length]. unfold BATCH_SIZE in Hlen.
        Z.div_mod_to_equations. lia.
    + exists []. rewrite createBatches_clause_1_equation_2. unfold ret.
      rewrite Nat.add_0_r, app_nil_r. cbn [map concat].
      repeat split; auto.
      * destruct w; reflexivity.
      * rewrite skipn_all2; [reflexivity|]. rewrite pairs_length. lia.
      * cbn. Z.div_mod_to_equations. lia.
Qed.
End Batching.

Lemma generateKeypairs_spec (keygen : nat -> Keypair) (n : nat) :
  forall w : World,
    generateKeypairs keygen n w
    = (Ok (map keygen (seq (keysGenerated w) n)),
       {| keysGenerated := (keysGenerated w + n)%nat;
          sendCalls := sendCalls w;
          trace := trace w |}).
Proof.
  induction n as [|n IH]; intros w.
  - cbn. unfold ret. rewrite Nat.add_0_r. destruct w; reflexivity.
  - cbn [generateKeypairs]. unfold bind at 1. unfold newKeypair.
    unfold bind at 1. rewrite IH. unfold ret.
    cbn [keysGenerated sendCalls trace seq map].
    rewrite Nat.add_succ_r. reflexivity.
Qed.

Lemma fullExceptLast_sizes {A} (b1 b2 b3 : list A) :
  fullExceptLast [b1; b2; b3] = true ->
  List.length (concat [b1; b2; b3]) = 12%nat ->
  map (@List.length A) [b1; b2; b3] = [5; 5; 2]%nat.
Proof.
  cbn [fullExceptLast concat map]. rewrite !length_app, !andb_true_iff, !Nat.eqb_eq.
  cbn [List.length]. intros [H1 [H2 _]] H. repeat f_equal; lia.
Qed.

(** A provisioning run over a network that confirms every
    transaction. *)
Lemma create_up
      (keygen : nat -> Keypair) (network : nat -> Result unit)
      (getFeePayers : Z -> list Keypair)
      (breakProgramId : PublicKey) (payer : Keypair) (costs : AccountCosts)
      (P : Z) (w : World) :
  0 <= P ->
  List.length (getFeePayers P) = Z.to_nat P ->
  (forall n, network n = Ok tt) ->
  let programKeypairs := map keygen (seq (keysGenerated w) (Z.to_nat P)) in
  exists batches : list Batch,
    _create keygen network getFeePayers breakProgramId payer costs P w
    = (Ok {| program := map publicKey programKeypairs;
             feePayerKeypairs := getFeePayers P;
             accountCapacity :=
               calculateTransactionsPerAccount (calculateProgrampace P) |},
       {| keysGenerated := (keysGenerated w + Z.to_nat P)%nat;
          sendCalls := (sendCalls w + List.length batches)%nat;
          trace := trace w ++ map (batchSend breakProgramId payer costs
                                             (calculateProgrampace P))
                                  batches |})
    /\ concat batches = combine programKeypairs (getFeePayers P)
    /\ Forall (fun b => (1 <= List.length b <= 5)%nat) batches
    /\ fullExceptLast batches = true
    /\ Z.of_nat (List.length batches) = Z.max 0 ((P + 4) / 5).
Proof.
  intros HP Hfee Hup programKeypairs.
  assert (Hprog : List.length programKeypairs = Z.to_nat P)
    by (unfold programKeypairs; now rewrite length_map, length_seq).
  destruct (createBatches_up network breakProgramId payer costs
              (calculateProgrampace P) P (getFeePayers P)
              programKeypairs Hfee Hprog Hup (Z.to_nat P) 0
              {| keysGenerated := (keysGenerated w + Z.to_nat P)%nat;
                 sendCalls := sendCalls w; trace := trace w |})
    as (batches & Heq & Hcat & Hall & Hfull & Hlen); [lia|lia|].
  exists batches. unfold _create.
  destruct (Z.ltb_spec P 0) as [Hneg|_]; [lia|].
  unfold bind at 1. rewrite generateKeypairs_spec.
  fold programKeypairs. unfold bind at 1. rewrite Heq. unfold ret.
  cbn [keysGenerated sendCalls trace].
  change (Z.to_nat 0) with 0%nat in Hcat. cbn [skipn] in Hcat.
  rewrite Z.sub_0_r in Hlen. auto.
Qed.

(** C3. For every parallelization [P >= 1], with [P] fee payers at
    hand and a network that confirms every transaction, [_create]
    submits the [P] (program account, fee payer) pairs as a sequence of
    batches, one transaction each and in order, such that: the batches
    laid end to end are exactly the [P] pairs in index order (so every
    pair is in exactly one batch), the number [n] of batches is
    [ceil (P / 5)], that is [5 * (n - 1) < P <= 5 * n], every batch
    holds between 1 and 5 pairs, and every batch but the last holds
    exactly 5.  For [P = 12] the batch sizes are 5, 5, 2. *)
Theorem create_batches_partition
        (keygen : nat -> Keypair) (network : nat -> Result unit)
        (getFeePayers : Z -> list Keypair)
        (breakProgramId : PublicKey) (payer : Keypair) (costs : AccountCosts)
        (P : Z) (w : World) :
  1 <= P ->
  List.length (getFeePayers P) = Z.to_nat P ->
  (forall n, network n = Ok tt) ->
  let programKeypairs := map keygen (seq (keysGenerated w) (Z.to_nat P)) in
  let pairs := combine programKeypairs (getFeePayers P) in
  let done := _create keygen network getFeePayers breakProgramId payer costs P w in
  exists batches : list Batch,
    isOk (fst done) = true
    /\ trace (snd done)
       = trace w ++ map (batchSend breakProgramId payer costs
                                   (calculateProgrampace P)) batches
    /\ concat batches = pairs
    /\ List.length pairs = Z.to_nat P
    /\ 5 * (Z.of_nat (List.length batches) - 1) < P
       <= 5 * Z.of_nat (List.length batches)
    /\ Forall (fun b => (1 <= List.length b <= 5)%nat) batches
    /\ fullExceptLast batches = true
    /\ (P = 12 -> map (@List.length _) batches = [5; 5; 2]%nat).
Proof.
  intros HP Hfee Hup programKeypairs pairs done.
  destruct (create_up keygen network getFeePayers breakProgramId payer costs
                      P w ltac:(lia) Hfee Hup)
    as (batches & Heq & Hcat & Hall & Hfull & Hlen).
  fold programKeypairs in Heq, Hcat. fold pairs in Hcat.
  assert (Hpairs : List.length pairs = Z.to_nat P).
  { unfold pairs, programKeypairs.
    rewrite length_combine, length_map, length_seq, Hfee. apply Nat.min_id. }
  assert (Hn : 5 * (Z.of_nat (List.length batches) - 1) < P
               <= 5 * Z.of_nat (List.length batches))
    by (rewrite Hlen; Z.div_mod_to_equations; lia).
  exists batches. subst done. rewrite Heq. cbn [fst snd trace isOk].
  repeat split; auto; try lia.
  intros H12. subst P.
  assert (Hthree : List.length batches = 3%nat) by lia.
  assert (Htwelve : List.length (concat batches) = 12%nat)
    by (rewrite Hcat, Hpairs; reflexivity).
  destruct batches as [|b1 [|b2 [|b3 [|b4 bs]]]]; try discriminate Hthree.
  now apply fullExceptLast_sizes.
Qed.

Lemma create_batches_partition_witness :
  exists batches : list Batch,
    concat batches
    = combine (map sampleKeygen (seq 0 12)) (sampleFeePayers 12)
    /\ map (@List.length _) batches = [5; 5; 2]%nat.
Proof.
  destruct (create_batches_partition sampleKeygen networkUp sampleFeePayers
              sampleProgramId samplePayer sampleCosts 12 emptyWorld)
    as (batches & _ & _ & Hcat & _ & _ & _ & _ & Hsizes);
    [lia | reflexivity | intros n; reflexivity |].
  exists batches. split; [exact Hcat | apply Hsizes; reflexivity].
Defined.

(** ** What a run can and cannot do, for any network *)

Section AnyNetwork.

Variable network : nat -> Result unit.

(** The retry loop resolves or rejects with its own error; it leaves
    the key generator alone. *)
Lemma submitWithRetries_outcome (tx : Transaction) (signers : list Keypair) :
  forall (retries : nat) (w : World),
    let done := submitWithRetries network retries tx signers w in
    (fst done = Ok tt \/ fst done = Throw "Couldn't confirm transaction")
    /\ keysGenerated (snd done) = keysGenerated w.
Proof.
  induction retries as [|retries IH]; intros w; cbn zeta.
  - cbn. auto.
  - destruct (network (sendCalls w)) as [[]|e] eqn:Hnet.
    + rewrite (submit_ok network tx signers retries w Hnet). cbn. auto.
    + destruct retries as [|retries'].
      * rewrite (submit_last_failure network tx signers w e Hnet). cbn. auto.
      * rewrite (submit_failure network tx signers retries' w e Hnet).
        destruct (IH (logged (retryMessage (S retries')) (sent tx signers w)))
          as [Hres Hkeys].
        split; [exact Hres | exact Hkeys].
Qed.

Variables (breakProgramId : PublicKey) (payer : Keypair)
          (costs : AccountCosts) (space : Z).
Variables (parallelization : Z) (feePayers program : list Keypair).

Lemma createBatches_step (accountIndex : Z) (w : World) :
  createBatches network breakProgramId payer costs parallelization
                feePayers program space accountIndex w
  = if Z_lt_dec accountIndex parallelization then
      bind (_createAccountBatch network breakProgramId payer costs
              (slice feePayers accountIndex (accountIndex + BATCH_SIZE))
              (slice program accountIndex (accountIndex + BATCH_SIZE))
              space)
           (fun _ =>
              createBatches network breakProgramId payer costs
                            parallelization feePayers program space
                            (accountIndex + BATCH_SIZE)) w
    else ret tt w.
Proof.
  rewrite createBatches_equation_1.
  destruct (Z_lt_dec accountIndex parallelization).
  - now rewrite createBatches_clause_1_equation_1.
  - now rewrite createBatches_clause_1_equation_2.
Qed.

(** Induction along the iterations of the batching loop. *)
Lemma createBatches_loop_ind (Q : Z -> World -> Result unit * World -> Prop) :
  (forall i w, ~ i < parallelization -> Q i w (Ok tt, w)) ->
  (forall i w,
      i < parallelization ->
      (forall w', Q (i + BATCH_SIZE) w'
                    (createBatches network breakProgramId payer costs
                       parallelization feePayers program space
                       (i + BATCH_SIZE) w')) ->
      Q i w
        (bind (_createAccountBatch network breakProgramId payer costs
                 (slice feePayers i (i + BATCH_SIZE))
                 (slice program i (i + BATCH_SIZE)) space)
              (fun _ =>
                 createBatches network breakProgramId payer costs
                               parallelization feePayers program space
                               (i + BATCH_SIZE)) w)) ->
  forall i w,
    Q i w (createBatches network breakProgramId payer costs parallelization
                         feePayers program space i w).
Proof.
  intros Hexit Hiter i.
  remember (Z.to_nat (parallelization - i)) as fuel eqn:Hfuel.
  revert i Hfuel.
  induction fuel as [fuel IH] using lt_wf_ind. intros i Hfuel w.
  rewrite createBatches_step.
  destruct (Z_lt_dec i parallelization) as [Hlt|Hge].
  - apply Hiter; [exact Hlt|]. intros w'.
    apply (IH (Z.to_nat (parallelization - (i + BATCH_SIZE))));
      [unfold BATCH_SIZE; lia | reflexivity].
  - now apply Hexit.
Qed.

Lemma createAccountBatch_keys (newFeePayers newProgram : list Keypair)
      (w : World) :
  keysGenerated (snd (_createAccountBatch network breakProgramId payer costs
                        newFeePayers newProgram space w))
  = keysGenerated w.
Proof.
  unfold _createAccountBatch.
  destruct (negb _); [reflexivity|].
  apply submitWithRetries_outcome.
Qed.

Lemma createBatches_keys (accountIndex : Z) (w : World) :
  keysGenerated (snd (createBatches network breakProgramId payer costs
                        parallelization feePayers program space
                        accountIndex w))
  = keysGenerated w.
Proof.
  apply (createBatches_loop_ind
           (fun _ w done => keysGenerated (snd done) = keysGenerated w)).
  - reflexivity.
  - intros i w0 _ IH. unfold bind.
    pose proof (createAccountBatch_keys
                  (slice feePayers i (i + BATCH_SIZE))
                  (slice program i (i + BATCH_SIZE)) w0) as Hk.
    destruct (_createAccountBatch _ _ _ _ _ _ _ w0) as [[[]|e] w1];
      cbn [snd] in *; [|exact Hk].
    now rewrite IH.
Qed.

Hypothesis same_length :
  List.length program = List.length feePayers.

Lemma slices_equal_length (accountIndex : Z) :
  List.length (slice program accountIndex (accountIndex + BATCH_SIZE))
  = List.length (slice feePayers accountIndex (accountIndex + BATCH_SIZE)).
Proof.
  unfold slice. rewrite !length_firstn, !length_skipn.
  now rewrite same_length.
Qed.

Lemma createBatches_outcome (accountIndex : Z) (w : World) :
  let done := createBatches network breakProgramId payer costs
                parallelization feePayers program space
                accountIndex w in
  fst done = Ok tt \/ fst done = Throw "Couldn't confirm transaction".
Proof.
  apply (createBatches_loop_ind
           (fun _ _ done =>
              fst done = Ok tt
              \/ fst done = Throw "Couldn't confirm transaction")).
  - auto.
  - intros i w0 _ IH. unfold bind.
    rewrite createAccountBatch_checked by apply slices_equal_length.
    destruct (submitWithRetries_outcome
                (batchTransaction breakProgramId payer costs
                   (slice feePayers i (i + BATCH_SIZE))
                   (slice program i (i + BATCH_SIZE)) space)
                (payer :: slice program i (i + BATCH_SIZE)) 3 w0)
      as [Hres _].
    destruct (submitWithRetries _ _ _ _ w0) as [[[]|e] w1];
      cbn [fst] in *; [apply IH|].
    destruct Hres as [Hres|Hres]; [discriminate|]. now right.
Qed.

End AnyNetwork.

(** C10. From the batching loop of [_create] the length check of
    [_createAccountBatch] never fails: with [parallelization] fee
    payers at hand, the two slices of every iteration have the same
    length, and no run of [_create] rejects with "Internal error". *)
Theorem create_internal_error_unreachable
        (keygen : nat -> Keypair) (network : nat -> Result unit)
        (getFeePayers : Z -> list Keypair)
        (breakProgramId : PublicKey) (payer : Keypair) (costs : AccountCosts)
        (P : Z) (w : World) :
  List.length (getFeePayers P) = Z.to_nat P ->
  let program := map keygen (seq (keysGenerated w) (Z.to_nat P)) in
  (forall accountIndex : Z,
      List.length (slice program accountIndex
                         (accountIndex + BATCH_SIZE))
      = List.length (slice (getFeePayers P) accountIndex
                           (accountIndex + BATCH_SIZE)))
  /\ fst (_create keygen network getFeePayers breakProgramId payer costs P w)
     <> Throw "Internal error".
Proof.
  intros Hfee program.
  assert (Hsame : List.length program = List.length (getFeePayers P))
    by (unfold program; now rewrite length_map, length_seq, Hfee).
  split.
  - intros i. now apply slices_equal_length.
  - unfold _create. destruct (P <? 0); [discriminate|].
    unfold bind at 1. rewrite generateKeypairs_spec. fold program.
    unfold bind at 1.
    pose proof (createBatches_outcome network breakProgramId payer costs
                  (calculateProgrampace P) P (getFeePayers P)
                  program Hsame 0
                  {| keysGenerated := (keysGenerated w + Z.to_nat P)%nat;
                     sendCalls := sendCalls w; trace := trace w |}) as Hout.
    cbn zeta in Hout.
    destruct (createBatches _ _ _ _ _ _ _ _ _ _) as [[[]|e] w1];
      cbn [fst] in *; [discriminate|].
    destruct Hout as [Hout|Hout]; [discriminate|].
    injection Hout as ->. discriminate.
Qed.

Lemma create_internal_error_unreachable_witness :
  fst (_create sampleKeygen networkDown sampleFeePayers sampleProgramId
               samplePayer sampleCosts 7 emptyWorld)
  <> Throw "Internal error".
Proof.
  apply (create_internal_error_unreachable sampleKeygen networkDown
           sampleFeePayers sampleProgramId samplePayer sampleCosts 7
           emptyWorld).
  reflexivity.
Defined.

(** A run of [_create] that resolves: where its keypairs come from. *)
Lemma create_resolves
      (keygen : nat -> Keypair) (network : nat -> Result unit)
      (getFeePayers : Z -> list Keypair)
      (breakProgramId : PublicKey) (payer : Keypair) (costs : AccountCosts)
      (P : Z) (w w' : World) (config : Config) :
  _create keygen network getFeePayers breakProgramId payer costs P w
  = (Ok config, w') ->
  feePayerKeypairs config = getFeePayers P
  /\ program config
     = map publicKey (map keygen (seq (keysGenerated w) (Z.to_nat P)))
  /\ keysGenerated w' = (keysGenerated w + Z.to_nat P)%nat.
Proof.
  unfold _create. destruct (P <? 0); [discriminate|].
  unfold bind at 1. rewrite generateKeypairs_spec. unfold bind at 1.
  pose proof (createBatches_keys network breakProgramId payer costs
                (calculateProgrampace P) P (getFeePayers P)
                (map keygen (seq (keysGenerated w) (Z.to_nat P))) 0
                {| keysGenerated := (keysGenerated w + Z.to_nat P)%nat;
                   sendCalls := sendCalls w; trace := trace w |}) as Hkeys.
  destruct (createBatches _ _ _ _ _ _ _ _ _ _) as [[[]|e] w1];
    cbn [snd keysGenerated] in Hkeys; [|discriminate].
  unfold ret. intros H. injection H as <- <-. cbn. auto.
Qed.

(** ** The status and the lock *)

Lemma Status_eqb_eq (a b : Status) : Status_eqb a b = true <-> a = b.
Proof. destruct a, b; cbn; split; congruence. Qed.

(** C7 (as the code has it). [close] starts its teardown (takes the
    lock, sets the status to [closing] and suspends at [_close])
    exactly when the connection and the wallet are defined, the lock is
    clear and the status its callback closed over is [inactive]; when
    that status is anything else, [active] included, it starts nothing
    and leaves the state as it is.  For the callback of the current
    render the status closed over is the current status of the
    provider, so that callback starts the teardown exactly from the
    current status [inactive]. *)
Theorem close_starts_only_from_inactive (r : Render) (st : State)
        (p : Props) :
  (fst (closeStart r st) = Started
   <-> r_connection r <> None /\ r_wallet r <> None
       /\ creationLock st = false /\ r_status r = inactive)
  /\ (fst (closeStart r st) = Started ->
      snd (closeStart r st) = setStatus closing (setCreationLock true st))
  /\ (r_status r <> inactive ->
      fst (closeStart r st) <> Started /\ snd (closeStart r st) = st)
  /\ (r_status r = active -> fst (closeStart r st) <> Started)
  /\ (fst (closeStart (render p st) st) = Started
      <-> p_connection p <> None /\ p_wallet p <> None
          /\ creationLock st = false /\ status st = inactive)
  /\ (status st <> inactive ->
      fst (closeStart (render p st) st) <> Started
      /\ snd (closeStart (render p st) st) = st).
Proof.
  unfold closeStart, render. cbn [r_connection r_wallet r_status].
  destruct (r_connection r) as [connection|], (r_wallet r) as [wallet|],
    (p_connection p) as [connection'|], (p_wallet p) as [wallet'|],
    (creationLock st), (r_status r), (status st); cbn;
    repeat split; intros; try congruence; try discriminate;
    repeat match goal with H : _ /\ _ |- _ => destruct H end;
    try congruence.
Qed.

Lemma close_starts_only_from_inactive_witness :
  snd (closeStart (render sampleProps idleState) idleState)
  = setStatus closing (setCreationLock true idleState).
Proof.
  apply (close_starts_only_from_inactive (render sampleProps idleState)
                                         idleState sampleProps).
  reflexivity.
Defined.

(** C7 (as claimed) fails: the provider has reached the status
    [active] (a [create] has settled), the lock is clear, and [close]
    is called through the callback of the earlier render, which closed
    over the status [inactive]; the teardown starts from the current
    status [active]. *)
Lemma stale_close_starts_from_active :
  run [RunEffect (Some sampleConnection);
       CostSettles 1 (Ok sampleCosts);
       CallCreate (render sampleProps idleState);
       CreateSettles (Ok {| program := [PK 0; PK 1];
                            feePayerKeypairs := sampleFeePayers 2;
                            accountCapacity := 504 |})]
      initialSystem
  = Some {| provider := activeState; inFlight := []; costLoops := [] |}
  /\ status activeState = active
  /\ run [CallClose (render sampleProps idleState)]
         {| provider := activeState; inFlight := []; costLoops := [] |}
     = Some {| provider := setStatus closing (setCreationLock true activeState);
               inFlight := [OpClose]; costLoops := [] |}.
Proof. repeat split. Qed.

(** C8. When the cost computation of the current generation succeeds,
    the costs are stored and the status moves from [initializing] to
    [inactive]; a status that is anything else stays as it is. *)
Theorem cost_success_leaves_initializing (st : State)
        (accountCosts : AccountCosts) :
  let '(st', log, finished) :=
    costIteration (calculationCounter st) (Ok accountCosts) st in
  costs st' = Some accountCosts
  /\ (status st = initializing -> status st' = inactive)
  /\ (status st <> initializing -> status st' = status st)
  /\ accounts st' = accounts st
  /\ creationLock st' = creationLock st
  /\ calculationCounter st' = calculationCounter st
  /\ log = [] /\ finished = true.
Proof.
  unfold costIteration. rewrite Z.eqb_refl. cbn.
  repeat split; destruct (status st); congruence.
Qed.

Lemma cost_success_leaves_initializing_witness :
  status (fst (fst (costIteration 0 (Ok sampleCosts) initialState))) = inactive
  /\ status (fst (fst (costIteration 1 (Ok sampleCosts)
                         (setStatus creating idleState)))) = creating.
Proof.
  split.
  - pose proof (cost_success_leaves_initializing initialState sampleCosts) as H.
    cbn in H. apply H. reflexivity.
  - pose proof (cost_success_leaves_initializing
                  (setStatus creating idleState) sampleCosts) as H.
    cbn in H. apply H. discriminate.
Defined.

(** ** The generation counter *)

Lemma createStart_counter (r : Render) (st : State) :
  calculationCounter (snd (createStart r st)) = calculationCounter st.
Proof.
  unfold createStart.
  destruct (r_connection r), (r_breakProgramId r), (r_wallet r), (r_costs r),
    (creationLock st), (Status_eqb (r_status r) inactive); reflexivity.
Qed.

Lemma closeStart_counter (r : Render) (st : State) :
  calculationCounter (snd (closeStart r st)) = calculationCounter st.
Proof.
  unfold closeStart.
  destruct (r_connection r), (r_wallet r), (creationLock st),
    (Status_eqb (r_status r) inactive); reflexivity.
Qed.

Lemma costIteration_counter (n : Z) (result : Result AccountCosts) (st : State) :
  calculationCounter (fst (fst (costIteration n result st)))
  = calculationCounter st.
Proof.
  unfold costIteration.
  destruct result; [destruct (calculationCounter st =? n)|]; reflexivity.
Qed.

(** No transition lowers the counter, and a run of the effect raises it. *)
Lemma step_counter (a : Action) (s s' : System) :
  step a s = Some s' ->
  calculationCounter (provider s) <= calculationCounter (provider s')
  /\ (forall connection, a = RunEffect connection ->
        calculationCounter (provider s')
        = calculationCounter (provider s) + 1).
Proof.
  destruct a as [connection|n result| |r|result|r|result]; cbn [step].
  - unfold effectStart. destruct connection; intros H; injection H as <-;
      cbn; split; intros; lia.
  - destruct (hasLoop n (costLoops s)); [|discriminate].
    pose proof (costIteration_counter n result (provider s)) as Hc.
    destruct (costIteration n result (provider s)) as [[st log] finished].
    intros H; injection H as <-. cbn in *. split; [lia|discriminate].
  - intros H; injection H as <-. cbn. unfold deactivate.
    destruct (negb _); cbn; split; try lia; discriminate.
  - pose proof (createStart_counter r (provider s)) as Hc.
    destruct (createStart r (provider s)) as [outcome st].
    intros H; injection H as <-. cbn in *. split; [lia|discriminate].
  - destruct (hasOp OpCreate (inFlight s)); [|discriminate].
    destruct result; intros H; injection H as <-; cbn;
      split; try lia; discriminate.
  - pose proof (closeStart_counter r (provider s)) as Hc.
    destruct (closeStart r (provider s)) as [outcome st].
    intros H; injection H as <-. cbn in *. split; [lia|discriminate].
  - destruct (hasOp OpClose (inFlight s)); [|discriminate].
    intros H; injection H as <-. cbn. split; [lia|discriminate].
Qed.

Lemma run_counter (acts : list Action) : forall s s',
  run acts s = Some s' ->
  calculationCounter (provider s) <= calculationCounter (provider s').
Proof.
  induction acts as [|a acts IH]; intros s s' H; cbn in H.
  - injection H as <-. lia.
  - destruct (step a s) as [s1|] eqn:Hstep; [|discriminate].
    pose proof (proj1 (step_counter a s s1 Hstep)).
    pose proof (IH s1 s' H). lia.
Qed.

Lemma run_app (acts1 acts2 : list Action) : forall s s',
  run (acts1 ++ acts2) s = Some s' ->
  exists s1, run acts1 s = Some s1 /\ run acts2 s1 = Some s'.
Proof.
  induction acts1 as [|a acts1 IH]; intros s s' H; cbn in *.
  - eauto.
  - destruct (step a s) as [s1|]; [|discriminate]. now apply IH.
Qed.

(** C6. A cost loop started by a run of the effect saves the counter
    of that run.  Once the effect has run again (the connection or the
    parallelization changed), whatever else happened in between and
    after, a success of the old loop changes nothing: the costs, the
    status and every other field stay as they are, nothing is logged,
    and the loop returns. *)
Theorem stale_cost_result_dropped (s0 s1 s2 : System)
        (connection : Connection) (connection' : option Connection)
        (acts1 acts2 : list Action) (accountCosts : AccountCosts) :
  step (RunEffect (Some connection)) s0 = Some s1 ->
  run (acts1 ++ RunEffect connection' :: acts2) s1 = Some s2 ->
  let savedCounter := calculationCounter (provider s1) in
  hasLoop savedCounter (costLoops s1) = true
  /\ calculationCounter (provider s2) > savedCounter
  /\ costIteration savedCounter (Ok accountCosts) (provider s2)
     = (provider s2, [], true).
Proof.
  intros Hstart Hrun savedCounter.
  split.
  - cbn in Hstart. injection Hstart as <-. cbn. subst savedCounter. cbn.
    now rewrite Z.eqb_refl.
  - destruct (run_app _ _ _ _ Hrun) as (sa & Ha & Hb).
    cbn [run] in Hb.
    destruct (step (RunEffect connection') sa) as [sb|] eqn:Hstep;
      [|discriminate].
    pose proof (run_counter _ _ _ Ha).
    pose proof (proj2 (step_counter _ _ _ Hstep) connection' eq_refl).
    pose proof (run_counter _ _ _ Hb).
    assert (Hgt : calculationCounter (provider s2) > savedCounter)
      by (subst savedCounter; lia).
    split; [exact Hgt|].
    unfold costIteration.
    destruct (Z.eqb_spec (calculationCounter (provider s2)) savedCounter);
      [lia|reflexivity].
Qed.

Lemma stale_cost_result_dropped_witness :
  exists s1 s2 : System,
    step (RunEffect (Some sampleConnection)) initialSystem = Some s1
    /\ run [RunEffect None] s1 = Some s2
    /\ costIteration (calculationCounter (provider s1)) (Ok sampleCosts)
                     (provider s2)
       = (provider s2, [], true).
Proof.
  eexists. eexists. split; [reflexivity|]. split; [reflexivity|].
  apply (stale_cost_result_dropped initialSystem _ _ sampleConnection None
           [] [] sampleCosts eq_refl eq_refl).
Defined.

(** ** The exclusive gate *)

Lemma createStart_cases (r : Render) (st : State) :
  (fst (createStart r st) = Started
   /\ creationLock st = false
   /\ snd (createStart r st) = setStatus creating (setCreationLock true st))
  \/ (fst (createStart r st) <> Started /\ snd (createStart r st) = st).
Proof.
  unfold createStart.
  destruct (r_connection r), (r_breakProgramId r), (r_wallet r), (r_costs r),
    (creationLock st), (Status_eqb (r_status r) inactive); cbn;
    first [ left; repeat split; reflexivity
          | right; split; [discriminate|reflexivity] ].
Qed.

Lemma closeStart_cases (r : Render) (st : State) :
  (fst (closeStart r st) = Started
   /\ creationLock st = false
   /\ snd (closeStart r st) = setStatus closing (setCreationLock true st))
  \/ (fst (closeStart r st) <> Started /\ snd (closeStart r st) = st).
Proof.
  unfold closeStart.
  destruct (r_connection r), (r_wallet r), (creationLock st),
    (Status_eqb (r_status r) inactive); cbn;
    first [ left; repeat split; reflexivity
          | right; split; [discriminate|reflexivity] ].
Qed.

Lemma effectStart_lock (connection : option Connection) (st : State) :
  creationLock (fst (effectStart connection st)) = creationLock st.
Proof. unfold effectStart. destruct connection; reflexivity. Qed.

Lemma costIteration_lock (n : Z) (result : Result AccountCosts) (st : State) :
  creationLock (fst (fst (costIteration n result st))) = creationLock st.
Proof.
  unfold costIteration.
  destruct result; [destruct (calculationCounter st =? n)|]; reflexivity.
Qed.

Lemma deactivate_lock (st : State) :
  creationLock (deactivate st) = creationLock st.
Proof. unfold deactivate. destruct (negb _); reflexivity. Qed.

Lemma step_gateInvariant (a : Action) (s s' : System) :
  gateInvariant s -> step a s = Some s' -> gateInvariant s'.
Proof.
  unfold gateInvariant.
  destruct a as [connection|n result| |r|result|r|result]; cbn [step];
    intros Hinv Hstep.
  - pose proof (effectStart_lock connection (provider s)) as Hl.
    destruct (effectStart connection (provider s)) as [st saved].
    injection Hstep as <-. cbn in *. now rewrite Hl.
  - destruct (hasLoop n (costLoops s)); [|discriminate].
    pose proof (costIteration_lock n result (provider s)) as Hl.
    destruct (costIteration n result (provider s)) as [[st log] finished].
    injection Hstep as <-. cbn in *. now rewrite Hl.
  - injection Hstep as <-. cbn. now rewrite deactivate_lock.
  - destruct (createStart_cases r (provider s)) as [(Ho & Hfree & Hst)|[Ho Hst]];
      destruct (createStart r (provider s)) as [outcome st];
      cbn [fst snd] in *; injection Hstep as <-; cbn; subst st.
    + subst outcome. destruct Hinv as [[_ Hnone]|[Hheld _]]; [|congruence].
      right. split; [reflexivity|]. rewrite Hnone. eauto.
    + destruct outcome; try congruence; exact Hinv.
  - destruct (hasOp OpCreate (inFlight s)) eqn:Hhas; [|discriminate].
    destruct Hinv as [[_ Hnone]|[_ [o Hone]]];
      [rewrite Hnone in Hhas; discriminate|].
    rewrite Hone in *. destruct o; [|discriminate].
    left. destruct result; injection Hstep as <-; cbn; auto.
  - destruct (closeStart_cases r (provider s)) as [(Ho & Hfree & Hst)|[Ho Hst]];
      destruct (closeStart r (provider s)) as [outcome st];
      cbn [fst snd] in *; injection Hstep as <-; cbn; subst st.
    + subst outcome. destruct Hinv as [[_ Hnone]|[Hheld _]]; [|congruence].
      right. split; [reflexivity|]. rewrite Hnone. eauto.
    + destruct outcome; try congruence; exact Hinv.
  - destruct (hasOp OpClose (inFlight s)) eqn:Hhas; [|discriminate].
    destruct Hinv as [[_ Hnone]|[_ [o Hone]]];
      [rewrite Hnone in Hhas; discriminate|].
    rewrite Hone in *. destruct o; [discriminate|].
    left. injection Hstep as <-; cbn; auto.
Qed.

Lemma run_gateInvariant (acts : list Action) : forall s s',
  gateInvariant s -> run acts s = Some s' -> gateInvariant s'.
Proof.
  induction acts as [|a acts IH]; intros s s' Hinv Hrun; cbn in Hrun.
  - now injection Hrun as <-.
  - destruct (step a s) as [s1|] eqn:Hstep; [|discriminate].
    eauto using step_gateInvariant.
Qed.

Lemma reachable_gateInvariant (s : System) : reachable s -> gateInvariant s.
Proof.
  intros [acts Hrun]. apply (run_gateInvariant acts initialSystem); [|exact Hrun].
  left. split; reflexivity.
Qed.

(** C2 (as the code has it). In every reachable state at most one
    [create] or [close] is suspended, and the lock is held exactly then.
    While the lock is held, a [create] or [close] call whose own
    preconditions hold (the checks made before the lock is read) logs a
    warning and returns; a call with a precondition missing rejects
    with the error of the first missing precondition ("Invalid
    connection", "Missing break program id", "Missing wallet",
    "Calculating costs" for [create]; the connection and the wallet
    errors for [close]).  Either way the call starts nothing and leaves
    the state as it is.  A call that does not start leaves the lock as
    it found it, and the settlement of the call that took the lock,
    resolved or rejected, clears it. *)
Theorem exclusive_gate :
  (forall s, reachable s ->
     (List.length (inFlight s) <= 1)%nat
     /\ (creationLock (provider s) = true <-> inFlight s <> []))
  /\ (forall r st,
        creationLock st = true ->
        (r_connection r <> None -> r_breakProgramId r <> None ->
         r_wallet r <> None -> r_costs r <> None ->
         createStart r st
         = (Returned [EvConsoleWarn "Account creation is locked"], st))
        /\ (r_connection r <> None -> r_wallet r <> None ->
            closeStart r st
            = (Returned [EvConsoleWarn "Account closing is locked"], st))
        /\ (r_connection r = None ->
            createStart r st = (Rejected "Invalid connection", st))
        /\ (r_connection r <> None -> r_breakProgramId r = None ->
            createStart r st = (Rejected "Missing break program id", st))
        /\ (r_connection r <> None -> r_breakProgramId r <> None ->
            r_wallet r = None ->
            createStart r st = (Rejected "Missing wallet", st))
        /\ (r_connection r <> None -> r_breakProgramId r <> None ->
            r_wallet r <> None -> r_costs r = None ->
            createStart r st = (Rejected "Calculating costs", st))
        /\ (r_connection r = None ->
            closeStart r st
            = (Rejected "Can't close  until connection is valid", st))
        /\ (r_connection r <> None -> r_wallet r = None ->
            closeStart r st
            = (Rejected "Can't create  if wallet is not setup", st))
        /\ fst (createStart r st) <> Started /\ snd (createStart r st) = st
        /\ fst (closeStart r st) <> Started /\ snd (closeStart r st) = st)
  /\ (forall r st,
        (fst (createStart r st) <> Started -> snd (createStart r st) = st)
        /\ (fst (closeStart r st) <> Started -> snd (closeStart r st) = st))
  /\ (forall result st,
        creationLock (snd (createFinish result st)) = false)
  /\ (forall result st,
        creationLock (snd (closeFinish result st)) = false).
Proof.
  split; [|split; [|split; [|split]]].
  - intros s Hs. destruct (reachable_gateInvariant s Hs)
      as [[Hfree Hnone]|[Hheld [o Hone]]]; rewrite ?Hnone, ?Hone.
    + cbn. split; [lia|]. rewrite Hfree. split; congruence.
    + cbn. split; [lia|]. rewrite Hheld. split; congruence.
  - intros r st Hheld. unfold createStart, closeStart. rewrite Hheld.
    destruct (r_connection r), (r_breakProgramId r), (r_wallet r), (r_costs r);
      cbn; repeat split; intros; try congruence.
  - intros r st. split; intros Hns.
    + destruct (createStart_cases r st) as [(Ho & _)|[_ Hst]]; congruence.
    + destruct (closeStart_cases r st) as [(Ho & _)|[_ Hst]]; congruence.
  - intros [config|e] st; reflexivity.
  - intros result st; reflexivity.
Qed.

Lemma exclusive_gate_witness :
  createStart (render sampleProps closingState) closingState
  = (Returned [EvConsoleWarn "Account creation is locked"], closingState).
Proof.
  apply (proj1 (proj2 exclusive_gate)); [reflexivity| | | |]; discriminate.
Defined.

(** C2 (as claimed) fails: here a [close] is suspended and holds the
    lock, the program id has not been loaded, and a [create] call
    rejects with an error instead of returning. *)
Lemma gate_held_create_rejects :
  run [RunEffect (Some sampleConnection);
       CostSettles 1 (Ok sampleCosts);
       CallClose (render loadingProps idleState)]
      initialSystem
  = Some {| provider := closingState; inFlight := [OpClose]; costLoops := [] |}
  /\ creationLock closingState = true
  /\ createStart (render loadingProps closingState) closingState
     = (Rejected "Missing break program id", closingState).
Proof. repeat split. Qed.

(** ** Failure of a started call *)

(** C5 (as the code has it). When [_create] rejects, the started
    [create] logs the error, drops the pool config, sets the status to
    [inactive], clears the lock and resolves: the error does not reach
    the caller.  When [_close] rejects, the started [close] sets the
    status to [inactive], clears the lock, leaves the pool config as it
    is, and rejects with that error.  Neither runs [_create] or
    [_close] a second time. *)
Theorem fatal_failure_resets
        (keygen : nat -> Keypair) (network : nat -> Result unit)
        (getFeePayers : Z -> list Keypair)
        (r : Render) (st : State) (w w1 : World) (e : Error) :
  (forall breakProgramId wallet accountCosts,
      fst (createStart r st) = Started ->
      r_breakProgramId r = Some breakProgramId ->
      r_wallet r = Some wallet ->
      r_costs r = Some accountCosts ->
      _create keygen network getFeePayers breakProgramId wallet accountCosts
              (r_parallelization r) w = (Throw e, w1) ->
      exists st',
        create keygen network getFeePayers r st w
        = (Ok tt, st', logAll [EvConsoleError "Failed to create "] w1)
        /\ status st' = inactive
        /\ creationLock st' = false
        /\ accounts st' = None
        /\ costs st' = costs st)
  /\ (forall connection wallet,
         fst (closeStart r st) = Started ->
         r_connection r = Some connection ->
         r_wallet r = Some wallet ->
         _close network getFeePayers connection wallet
                (r_parallelization r) w = (Throw e, w1) ->
         exists st',
           close network getFeePayers r st w = (Throw e, st', logAll [] w1)
           /\ status st' = inactive
           /\ creationLock st' = false
           /\ accounts st' = accounts st
           /\ costs st' = costs st)
  /\ (forall st1,
         createFinish (Throw e) st1
         = (Ok tt, [EvConsoleError "Failed to create "],
            setCreationLock false (setStatus inactive (setAccounts None st1))))
  /\ (forall st1,
         closeFinish (Throw e) st1
         = (Throw e, [], setCreationLock false (setStatus inactive st1))).
Proof.
  split; [|split; [|split; reflexivity]].
  - intros breakProgramId wallet costs0 Hstarted Hid Hwallet Hcosts Hrun.
    unfold create.
    destruct (createStart_cases r st) as [(_ & _ & Hst)|[Hns _]];
      [|congruence].
    destruct (createStart r st) as [outcome st1]. cbn [fst snd] in *.
    subst outcome st1. rewrite Hid, Hwallet, Hcosts, Hrun. cbn.
    eexists. repeat split.
  - intros connection wallet Hstarted Hconn Hwallet Hrun.
    unfold close.
    destruct (closeStart_cases r st) as [(_ & _ & Hst)|[Hns _]];
      [|congruence].
    destruct (closeStart r st) as [outcome st1]. cbn [fst snd] in *.
    subst outcome st1. rewrite Hconn, Hwallet, Hrun. cbn.
    eexists. repeat split.
Qed.

Lemma fatal_failure_resets_witness :
  exists (st' : State) (w' : World),
    create sampleKeygen networkDown sampleFeePayers
              (render sampleProps idleState) idleState emptyWorld
    = (Ok tt, st', w')
    /\ status st' = inactive /\ creationLock st' = false
    /\ accounts st' = None.
Proof.
  destruct (fatal_failure_resets sampleKeygen networkDown sampleFeePayers
              (render sampleProps idleState) idleState emptyWorld
              (snd (_create sampleKeygen networkDown sampleFeePayers
                            sampleProgramId samplePayer sampleCosts 4
                            emptyWorld))
              "Couldn't confirm transaction")
    as [Hcreate _].
  destruct (Hcreate sampleProgramId samplePayer sampleCosts)
    as (st' & Hrun & Hstatus & Hlock & Haccounts & _);
    try reflexivity.
  exists st'. eexists. split; [exact Hrun|]. auto.
Defined.

(** C5 (as claimed) fails: [create] is started from the idle state,
    [_create] rejects because no transaction is ever confirmed, and the
    promise of [create] resolves. *)
Lemma create_failure_not_surfaced :
  fst (createStart (render sampleProps idleState) idleState) = Started
  /\ fst (_create sampleKeygen networkDown sampleFeePayers sampleProgramId
                  samplePayer sampleCosts 4 emptyWorld)
     = Throw "Couldn't confirm transaction"
  /\ fst (fst (create sampleKeygen networkDown sampleFeePayers
                         (render sampleProps idleState) idleState emptyWorld))
     = Ok tt.
Proof. repeat split. Qed.

(** * Further properties *)

(** ** The storage size as a function of the parallelization *)

(** X1. For [P >= 1] the storage size lies between 1 and 125 bytes, is
    1 from [P = 125] on, and never grows when the parallelization
    grows. *)
Theorem space_bounds_antitone (P Q : Z) :
  1 <= P -> P <= Q ->
  1 <= calculateProgrampace Q <= calculateProgrampace P
  /\ calculateProgrampace P <= 125
  /\ (125 <= P -> calculateProgrampace P = 1).
Proof.
  intros HP HPQ.
  pose proof (space_is_ceiling P HP) as [HPlo HPhi].
  pose proof (space_is_ceiling Q ltac:(lia)) as [HQlo HQhi].
  assert (H1Q : 1 <= calculateProgrampace Q) by nia.
  assert (Hanti : calculateProgrampace Q <= calculateProgrampace P) by nia.
  repeat split; try assumption; nia.
Qed.

Lemma space_bounds_antitone_witness :
  1 <= calculateProgrampace 50 <= calculateProgrampace 4
  /\ calculateProgrampace 4 <= 125.
Proof.
  destruct (space_bounds_antitone 4 50) as (H & H' & _); [lia|lia|].
  split; [exact H | exact H'].
Defined.


(** ** One batch *)

Section BatchShape.

Variables (breakProgramId : PublicKey) (payer : Keypair)
          (costs : AccountCosts) (space : Z).

Lemma batch_created (l : Batch) :
  createdAccounts (flat_map (batchInstructions breakProgramId payer costs space) l)
  = map (fun pair => publicKey (fst pair)) l.
Proof.
  induction l as [|[a f] l IH]; [reflexivity|].
  cbn [flat_map batchInstructions app map fst]. cbn [createdAccounts flat_map app].
  f_equal. exact IH.
Qed.

Lemma batch_funded (l : Batch) :
  fundedAccounts (flat_map (batchInstructions breakProgramId payer costs space) l)
  = map (fun pair => publicKey (snd pair)) l.
Proof.
  induction l as [|[a f] l IH]; [reflexivity|].
  cbn [flat_map batchInstructions app map snd]. cbn [fundedAccounts flat_map app].
  f_equal. exact IH.
Qed.

Lemma batch_lamports (l : Batch) :
  transactionLamports
    (flat_map (batchInstructions breakProgramId payer costs space) l)
  = Z.of_nat (List.length l) * (programAccountCost costs + feeAccountCost costs).
Proof.
  induction l as [|[a f] l IH]; [reflexivity|].
  cbn [flat_map batchInstructions app]. unfold transactionLamports in *.
  cbn [fold_right instructionLamports]. rewrite IH.
  cbn [List.length]. lia.
Qed.

Lemma batch_instruction_count (l : Batch) :
  List.length (flat_map (batchInstructions breakProgramId payer costs space) l)
  = (2 * List.length l)%nat.
Proof.
  induction l as [|[a f] l IH]; [reflexivity|].
  cbn [flat_map batchInstructions app List.length]. rewrite IH. lia.
Qed.

End BatchShape.

Lemma map_snd_combine {A B} : forall (l : list A) (l' : list B),
  List.length l = List.length l' -> map snd (combine l l') = l'.
Proof.
  induction l as [|a l IH]; intros [|b l'] H; cbn in *; try congruence.
  f_equal. apply IH. congruence.
Qed.

(** X3. The transaction of a batch of [n] matched pairs has [2 * n]
    instructions; it creates exactly the new program accounts and funds
    exactly the new fee payers, both in the order given, and moves
    [n * (programAccountCost + feeAccountCost)] lamports. *)
Theorem batchTransaction_shape (breakProgramId : PublicKey) (payer : Keypair)
        (costs : AccountCosts) (newFeePayers newProgram : list Keypair)
        (space : Z) :
  List.length newProgram = List.length newFeePayers ->
  let tx := batchTransaction breakProgramId payer costs
                             newFeePayers newProgram space in
  List.length tx = (2 * List.length newProgram)%nat
  /\ createdAccounts tx = map publicKey newProgram
  /\ fundedAccounts tx = map publicKey newFeePayers
  /\ transactionLamports tx
     = Z.of_nat (List.length newProgram)
       * (programAccountCost costs + feeAccountCost costs).
Proof.
  intros Hlen tx. subst tx. unfold batchTransaction.
  assert (Hc : List.length (combine newProgram newFeePayers)
               = List.length newProgram)
    by (rewrite length_combine, Hlen; apply Nat.min_id).
  rewrite batch_instruction_count, batch_created, batch_funded,
    batch_lamports, Hc.
  repeat split.
  - rewrite <- (map_map fst publicKey). now rewrite map_fst_combine.
  - rewrite <- (map_map snd publicKey). now rewrite map_snd_combine.
Qed.

Lemma batchTransaction_shape_witness :
  transactionLamports
    (batchTransaction sampleProgramId samplePayer sampleCosts
                      (sampleFeePayers 2) [sampleKeygen 0; sampleKeygen 1] 63)
  = 2 * (1113600 + 2170880).
Proof.
  apply (batchTransaction_shape sampleProgramId samplePayer sampleCosts
           (sampleFeePayers 2) [sampleKeygen 0; sampleKeygen 1] 63).
  reflexivity.
Defined.

Section RetryTrace.

Variable network : nat -> Result unit.
Variables (tx : Transaction) (signers : list Keypair).

(** Every event of the retry loop is the same submission or a log
    line, and the sends are counted by [sendCalls]. *)
Lemma submitWithRetries_trace :
  forall (retries : nat) (w : World),
    exists evs,
      trace (snd (submitWithRetries network retries tx signers w))
      = trace w ++ evs
      /\ Forall (fun ev => ev = EvSend tx signers (Some "confirmed")
                           \/ exists k, ev = retryMessage k) evs
      /\ sendCalls (snd (submitWithRetries network retries tx signers w))
         = (sendCalls w + List.length (filter isSend evs))%nat
      /\ (List.length (filter isSend evs) <= retries)%nat
      /\ ((1 <= retries)%nat -> (1 <= List.length (filter isSend evs))%nat).
Proof.
  induction retries as [|retries IH]; intros w.
  - exists []. cbn. rewrite app_nil_r, Nat.add_0_r. repeat split; auto; lia.
  - destruct (network (sendCalls w)) as [[]|e] eqn:Hnet.
    + rewrite (submit_ok network tx signers retries w Hnet).
      exists [EvSend tx signers (Some "confirmed")]. cbn.
      repeat split; auto; lia.
    + destruct retries as [|retries'].
      * rewrite (submit_last_failure network tx signers w e Hnet).
        exists [EvSend tx signers (Some "confirmed")]. cbn.
        repeat split; auto; lia.
      * rewrite (submit_failure network tx signers retries' w e Hnet).
        destruct (IH (logged (retryMessage (S retries')) (sent tx signers w)))
          as (evs & Htr & Hall & Hcalls & Hle & Hge).
        exists (EvSend tx signers (Some "confirmed")
                  :: retryMessage (S retries') :: evs).
        rewrite Htr, Hcalls. cbn [trace sendCalls logged sent].
        cbn [filter isSend retryMessage List.length].
        split; [|split; [|split; [|split]]].
        -- rewrite <- !app_assoc. reflexivity.
        -- constructor; [now left|]. constructor; [right; eauto|exact Hall].
        -- lia.
        -- lia.
        -- lia.
Qed.

End RetryTrace.

(** X4. Whatever the network does, [_createAccountBatch] either finds
    the two arrays of different length and rejects with "Internal
    error" without sending anything, or sends between 1 and 3 times,
    always the same transaction signed by the payer and the new program
    keypairs, logs between the sends, and resolves or rejects with
    "Couldn't confirm transaction". *)
Theorem createAccountBatch_sends (network : nat -> Result unit)
        (breakProgramId : PublicKey) (payer : Keypair) (costs : AccountCosts)
        (newFeePayers newProgram : list Keypair) (space : Z) (w : World) :
  let done := _createAccountBatch network breakProgramId payer costs
                                  newFeePayers newProgram space w in
  let attempt := EvSend (batchTransaction breakProgramId payer costs
                                          newFeePayers newProgram space)
                        (payer :: newProgram) (Some "confirmed") in
  (List.length newProgram <> List.length newFeePayers ->
   done = (Throw "Internal error", w))
  /\ (List.length newProgram = List.length newFeePayers ->
      (fst done = Ok tt \/ fst done = Throw "Couldn't confirm transaction")
      /\ exists evs,
          trace (snd done) = trace w ++ evs
          /\ Forall (fun ev => ev = attempt \/ exists k, ev = retryMessage k) evs
          /\ sendCalls (snd done)
             = (sendCalls w + List.length (filter isSend evs))%nat
          /\ (1 <= List.length (filter isSend evs) <= 3)%nat).
Proof.
  cbn zeta. split.
  - intros Hne. unfold _createAccountBatch.
    apply Nat.eqb_neq in Hne. now rewrite Hne.
  - intros Hlen. rewrite (createAccountBatch_checked _ _ _ _ _ _ _ Hlen).
    split; [apply submitWithRetries_outcome|].
    destruct (submitWithRetries_trace network
                (batchTransaction breakProgramId payer costs
                                  newFeePayers newProgram space)
                (payer :: newProgram) 3 w)
      as (evs & Htr & Hall & Hcalls & Hle & Hge).
    exists evs. split; [exact Htr|]. split; [exact Hall|].
    split; [exact Hcalls|]. split; [apply Hge; lia|exact Hle].
Qed.

Lemma createAccountBatch_sends_witness :
  _createAccountBatch networkUp sampleProgramId samplePayer sampleCosts
                      (sampleFeePayers 1) [sampleKeygen 0; sampleKeygen 1]
                      63 emptyWorld
  = (Throw "Internal error", emptyWorld).
Proof.
  apply (createAccountBatch_sends networkUp sampleProgramId samplePayer
           sampleCosts (sampleFeePayers 1) [sampleKeygen 0; sampleKeygen 1]
           63 emptyWorld).
  discriminate.
Defined.

(** ** A provisioning run *)

Lemma traceLamports_app (evs evs' : list Event) :
  traceLamports (evs ++ evs') = traceLamports evs + traceLamports evs'.
Proof.
  induction evs as [|ev evs IH]; [reflexivity|].
  cbn [app]. unfold traceLamports in *. cbn [fold_right].
  destruct ev; rewrite IH; lia.
Qed.

Lemma traceLamports_batches (breakProgramId : PublicKey) (payer : Keypair)
      (costs : AccountCosts) (space : Z) (batches : list Batch) :
  traceLamports (map (batchSend breakProgramId payer costs space) batches)
  = Z.of_nat (List.length (concat batches))
    * (programAccountCost costs + feeAccountCost costs).
Proof.
  induction batches as [|b batches IH]; [reflexivity|].
  cbn [map concat]. rewrite length_app, Nat2Z.inj_add.
  unfold traceLamports in *. cbn [fold_right batchSend].
  rewrite IH, batch_lamports. lia.
Qed.

Lemma calculateCosts_total (connection : Connection) (P : Z)
      (costs : AccountCosts) :
  calculateCosts connection P = Ok costs ->
  total costs = P * (programAccountCost costs + feeAccountCost costs).
Proof.
  unfold calculateCosts.
  destruct (getMinimumBalanceForRentExemption connection
              (calculateProgrampace P)); [|discriminate].
  destruct (getMinimumBalanceForRentExemption connection 0); [|discriminate].
  destruct (getRecentBlockhash connection); [|discriminate].
  cbn. intros H. injection H as <-. reflexivity.
Qed.

(** X5. When every transaction is confirmed, a run of [_create] with
    the costs that [calculateCosts] computed for the same
    parallelization moves exactly [total] lamports: the creation cost
    shown to the user is what the run spends on the new accounts. *)
Theorem create_spends_total
        (keygen : nat -> Keypair) (network : nat -> Result unit)
        (getFeePayers : Z -> list Keypair) (connection : Connection)
        (breakProgramId : PublicKey) (payer : Keypair) (costs : AccountCosts)
        (P : Z) (w : World) :
  1 <= P ->
  List.length (getFeePayers P) = Z.to_nat P ->
  (forall n, network n = Ok tt) ->
  calculateCosts connection P = Ok costs ->
  traceLamports
    (trace (snd (_create keygen network getFeePayers breakProgramId payer
                         costs P w)))
  = traceLamports (trace w) + total costs.
Proof.
  intros HP Hfee Hup Hcosts.
  destruct (create_up keygen network getFeePayers breakProgramId payer costs
                      P w ltac:(lia) Hfee Hup)
    as (batches & Heq & Hcat & _).
  rewrite Heq. cbn [snd trace].
  rewrite traceLamports_app, traceLamports_batches, Hcat.
  rewrite length_combine, length_map, length_seq, Hfee, Nat.min_id.
  rewrite (calculateCosts_total connection P costs Hcosts).
  rewrite Z2Nat.id by lia. reflexivity.
Qed.

Lemma create_spends_total_witness :
  traceLamports
    (trace (snd (_create sampleKeygen networkUp sampleFeePayers
                         sampleProgramId samplePayer sampleCosts 4
                         emptyWorld)))
  = 0 + total sampleCosts.
Proof.
  apply (create_spends_total sampleKeygen networkUp sampleFeePayers
           sampleConnection sampleProgramId samplePayer sampleCosts 4
           emptyWorld).
  - lia.
  - reflexivity.
  - intros n. reflexivity.
  - reflexivity.
Defined.


(** [_create] for a parallelization that is not negative: the keypairs
    are generated first, then the loop runs, then the config is built. *)
Lemma create_run
      (keygen : nat -> Keypair) (network : nat -> Result unit)
      (getFeePayers : Z -> list Keypair)
      (breakProgramId : PublicKey) (payer : Keypair) (costs : AccountCosts)
      (P : Z) (w : World) :
  0 <= P ->
  _create keygen network getFeePayers breakProgramId payer costs P w
  = let program := map keygen (seq (keysGenerated w) (Z.to_nat P)) in
    match createBatches network breakProgramId payer costs P
                        (getFeePayers P) program (calculateProgrampace P) 0
                        {| keysGenerated := (keysGenerated w + Z.to_nat P)%nat;
                           sendCalls := sendCalls w; trace := trace w |}
    with
    | (Ok _, w1) =>
        (Ok {| program := map publicKey program;
               feePayerKeypairs := getFeePayers P;
               accountCapacity :=
                 calculateTransactionsPerAccount (calculateProgrampace P) |},
         w1)
    | (Throw e, w1) => (Throw e, w1)
    end.
Proof.
  intros HP. unfold _create.
  destruct (Z.ltb_spec P 0) as [Hneg|_]; [lia|].
  unfold bind at 1. rewrite generateKeypairs_spec. unfold bind at 1.
  cbn zeta. destruct (createBatches _ _ _ _ _ _ _ _ _ _) as [[[]|e] w1];
    reflexivity.
Qed.






(** X8. The config of a run of [_create] that resolves, for [P >= 1]
    and [P] fee payers: [P] program accounts, [P] fee payers, and a
    capacity of [8 * storageSize] transactions per account, so that the
    pool as a whole covers between 1000 and [1000 + 8 * P - 1]
    transactions. *)
Theorem create_config_capacity
        (keygen : nat -> Keypair) (network : nat -> Result unit)
        (getFeePayers : Z -> list Keypair)
        (breakProgramId : PublicKey) (payer : Keypair) (costs : AccountCosts)
        (P : Z) (w w' : World) (config : Config) :
  1 <= P ->
  List.length (getFeePayers P) = Z.to_nat P ->
  _create keygen network getFeePayers breakProgramId payer costs P w
  = (Ok config, w') ->
  Z.of_nat (List.length (program config)) = P
  /\ Z.of_nat (List.length (feePayerKeypairs config)) = P
  /\ accountCapacity config = 8 * calculateProgrampace P
  /\ 1000 <= P * accountCapacity config < 1000 + 8 * P.
Proof.
  intros HP Hfee Hrun.
  pose proof (space_is_ceiling P HP) as [Hlo Hhi].
  rewrite create_run in Hrun by lia. cbn zeta in Hrun.
  destruct (createBatches _ _ _ _ _ _ _ _ _ _) as [[[]|e] w1];
    [|discriminate].
  injection Hrun as <- <-. cbn [program feePayerKeypairs accountCapacity].
  rewrite !length_map, length_seq, Hfee.
  unfold calculateTransactionsPerAccount, TX_PER_BYTE.
  repeat split; lia.
Qed.

Lemma create_config_capacity_witness :
  exists (config : Config) (w' : World),
    _create sampleKeygen networkUp sampleFeePayers sampleProgramId
            samplePayer sampleCosts 7 emptyWorld = (Ok config, w')
    /\ 1000 <= 7 * accountCapacity config < 1000 + 8 * 7.
Proof.
  eexists. eexists. split; [vm_compute; reflexivity|].
  refine (proj2 (proj2 (proj2
    (create_config_capacity sampleKeygen networkUp sampleFeePayers
       sampleProgramId samplePayer sampleCosts 7 emptyWorld _ _ _ _ _))));
    [lia | reflexivity | vm_compute; reflexivity].
Defined.

(** ** Teardown *)

Lemma promiseAll_ok {A} (vs : list A) : promiseAll (map Ok vs) = Ok vs.
Proof.
  induction vs as [|v vs IH]; [reflexivity|].
  cbn [map promiseAll]. rewrite IH. reflexivity.
Qed.

Lemma promiseAll_throw {A} (ps : list (Result A)) :
  (exists p, In p ps /\ isOk p = false) ->
  exists e, promiseAll ps = Throw e.
Proof.
  induction ps as [|p ps IH]; intros (q & Hin & Hq); [destruct Hin|].
  cbn [promiseAll]. destruct p as [v|e].
  - destruct Hin as [<-|Hin]; [discriminate|].
    destruct (IH (ex_intro _ q (conj Hin Hq))) as [e He].
    rewrite He. exists e. reflexivity.
  - exists e. reflexivity.
Qed.

(** X9. When the balance query of any fee payer fails, [_close]
    rejects before it submits anything: the world is left as it was. *)
Theorem close_balance_failure (network : nat -> Result unit)
        (getFeePayers : Z -> list Keypair) (connection : Connection)
        (payer : Keypair) (P : Z) (w : World) (feePayer : Keypair) :
  In feePayer (getFeePayers P) ->
  isOk (getBalance connection (publicKey feePayer)) = false ->
  exists e, _close network getFeePayers connection payer P w = (Throw e, w).
Proof.
  intros Hin Hfail. unfold _close, bind, liftResult.
  destruct (promiseAll_throw
              (map (fun feePayer0 =>
                      getBalance connection (publicKey feePayer0))
                   (getFeePayers P))) as [e He].
  - exists (getBalance connection (publicKey feePayer)). split; [|exact Hfail].
    apply in_map_iff. eauto.
  - rewrite He. eauto.
Qed.

Lemma close_balance_failure_witness :
  exists e,
    _close networkUp sampleFeePayers deafConnection samplePayer 2 emptyWorld
    = (Throw e, emptyWorld).
Proof.
  apply (close_balance_failure networkUp sampleFeePayers deafConnection
           samplePayer 2 emptyWorld
           {| publicKey := PK (-1000); secretKey := -1000 |}).
  - left. reflexivity.
  - reflexivity.
Defined.

(** X10. When every balance query answers, [_close] submits exactly
    one transaction, once: one transfer per fee payer, in order, of
    that fee payer's whole reported balance to the payer, signed by the
    payer and every fee payer; the promise settles as that one
    submission does. *)
Theorem close_single_send (network : nat -> Result unit)
        (getFeePayers : Z -> list Keypair) (connection : Connection)
        (payer : Keypair) (P : Z) (w : World) (balanceOf : PublicKey -> Z) :
  (forall feePayer, In feePayer (getFeePayers P) ->
     getBalance connection (publicKey feePayer)
     = Ok (balanceOf (publicKey feePayer))) ->
  let tx := map (fun feePayer =>
                   Transfer (publicKey feePayer) (publicKey payer)
                            (balanceOf (publicKey feePayer)))
                (getFeePayers P) in
  _close network getFeePayers connection payer P w
  = (network (sendCalls w),
     {| keysGenerated := keysGenerated w;
        sendCalls := S (sendCalls w);
        trace := trace w ++ [EvSend tx (payer :: getFeePayers P) None] |})
  /\ transactionLamports tx
     = sumZ (map (fun feePayer => balanceOf (publicKey feePayer))
                 (getFeePayers P)).
Proof.
  intros Hbal tx. split.
  - unfold _close, bind, liftResult.
    replace (map (fun feePayer => getBalance connection (publicKey feePayer))
                 (getFeePayers P))
      with (map (@Ok Z) (map (fun feePayer => balanceOf (publicKey feePayer))
                             (getFeePayers P)))
      by (rewrite map_map; symmetry; apply map_ext_in; exact Hbal).
    rewrite promiseAll_ok.
    unfold sendAndConfirmTransaction. do 5 f_equal.
    unfold tx. clear Hbal tx.
    induction (getFeePayers P) as [|fp l IH]; [reflexivity|].
    cbn [map combine fst snd]. now rewrite IH.
  - unfold tx. clear Hbal tx.
    induction (getFeePayers P) as [|fp l IH]; [reflexivity|].
    cbn [map]. unfold transactionLamports, sumZ in *.
    cbn [fold_right instructionLamports]. now rewrite IH.
Qed.

Lemma close_single_send_witness :
  fst (_close networkUp sampleFeePayers sampleConnection samplePayer 2
              emptyWorld) = Ok tt
  /\ sendCalls (snd (_close networkUp sampleFeePayers sampleConnection
                            samplePayer 2 emptyWorld)) = 1%nat.
Proof.
  destruct (close_single_send networkUp sampleFeePayers sampleConnection
              samplePayer 2 emptyWorld (fun _ => 0)) as [Hrun _].
  - intros feePayer _. reflexivity.
  - rewrite Hrun. split; reflexivity.
Defined.

(** ** The calls of the provider *)

(** X11. [create] starts (takes the lock, sets the status to
    [creating] and suspends at [_create]) exactly when connection,
    program id, wallet and costs are defined, the lock is clear and the
    status it sees is [inactive]; with all of that but another status
    it logs a warning and returns, leaving the state as it is. *)
Theorem create_starts_only_from_inactive (r : Render) (st : State) :
  (fst (createStart r st) = Started
   <-> r_connection r <> None /\ r_breakProgramId r <> None
       /\ r_wallet r <> None /\ r_costs r <> None
       /\ creationLock st = false /\ r_status r = inactive)
  /\ (fst (createStart r st) = Started ->
      snd (createStart r st) = setStatus creating (setCreationLock true st))
  /\ (r_connection r <> None -> r_breakProgramId r <> None ->
      r_wallet r <> None -> r_costs r <> None ->
      creationLock st = false -> r_status r <> inactive ->
      createStart r st
      = (Returned [EvConsoleWarn "Account creation requires inactive status"],
         st)).
Proof.
  unfold createStart.
  destruct (r_connection r), (r_breakProgramId r), (r_wallet r), (r_costs r),
    (creationLock st), (r_status r); cbn;
    repeat split; intros;
    repeat match goal with H : _ /\ _ |- _ => destruct H end;
    try congruence; try discriminate.
Qed.

Lemma create_starts_only_from_inactive_witness :
  createStart (render sampleProps activeState) activeState
  = (Returned [EvConsoleWarn "Account creation requires inactive status"],
     activeState).
Proof.
  apply (create_starts_only_from_inactive (render sampleProps activeState)
                                          activeState);
    discriminate || reflexivity.
Defined.

(** X12. The promise of [create] rejects only with one of its four
    precondition errors, and then neither the provider state nor the
    world has changed; an error of [_create] never reaches the caller.
    Whatever happens, a complete [create] leaves the lock, the costs
    and the counter as it found them, and leaves a pool config in
    place only together with the status [active]. *)
Theorem create_rejects_only_preconditions
        (keygen : nat -> Keypair) (network : nat -> Result unit)
        (getFeePayers : Z -> list Keypair)
        (r : Render) (st : State) (w : World) :
  let '(settled, st', w') := create keygen network getFeePayers r st w in
  (forall e, settled = Throw e ->
     In e ["Invalid connection"; "Missing break program id";
           "Missing wallet"; "Calculating costs"]
     /\ st' = st /\ w' = w)
  /\ creationLock st' = creationLock st
  /\ costs st' = costs st
  /\ calculationCounter st' = calculationCounter st
  /\ (st' = st
      \/ (status st' = active /\ accounts st' <> None)
      \/ (status st' = inactive /\ accounts st' = None)).
Proof.
  unfold create, createStart.
  destruct (r_connection r) as [connection|];
    [|cbn; split; [intros e0 H; injection H as <-; cbn; auto 10|auto 10]].
  destruct (r_breakProgramId r) as [breakProgramId|];
    [|cbn; split; [intros e0 H; injection H as <-; cbn; auto 10|auto 10]].
  destruct (r_wallet r) as [wallet|];
    [|cbn; split; [intros e0 H; injection H as <-; cbn; auto 10|auto 10]].
  destruct (r_costs r) as [accountCosts|];
    [|cbn; split; [intros e0 H; injection H as <-; cbn; auto 10|auto 10]].
  destruct (creationLock st) eqn:Hlock;
    [cbn; split; [discriminate|auto 10]|].
  destruct (Status_eqb (r_status r) inactive);
    [|cbn; split; [discriminate|auto 10]].
  destruct (_create keygen network getFeePayers breakProgramId wallet
                    accountCosts (r_parallelization r) w) as [[config|e] w1];
    cbn; (split; [discriminate|]); repeat split; auto.
  right. left. split; [reflexivity|discriminate].
Qed.

(** X13. A [create] that is called with everything in place (the
    four preconditions, the lock clear, the status [inactive]) and
    whose [_create] resolves with a config ends with that config
    stored, the status [active] and the lock clear, and its promise
    resolves; the world is as [_create] left it. *)
Theorem create_success
        (keygen : nat -> Keypair) (network : nat -> Result unit)
        (getFeePayers : Z -> list Keypair)
        (r : Render) (st : State) (w w1 : World)
        (connection : Connection) (breakProgramId : PublicKey)
        (wallet : Keypair) (accountCosts : AccountCosts) (config : Config) :
  r_connection r = Some connection ->
  r_breakProgramId r = Some breakProgramId ->
  r_wallet r = Some wallet ->
  r_costs r = Some accountCosts ->
  creationLock st = false ->
  r_status r = inactive ->
  _create keygen network getFeePayers breakProgramId wallet accountCosts
          (r_parallelization r) w = (Ok config, w1) ->
  create keygen network getFeePayers r st w
  = (Ok tt,
     {| costs := costs st; status := active; accounts := Some config;
        creationLock := false;
        calculationCounter := calculationCounter st |},
     logAll [] w1).
Proof.
  intros Hc Hid Hw Hcosts Hlock Hst Hrun.
  unfold create, createStart.
  rewrite Hc, Hid, Hw, Hcosts, Hlock, Hst. cbn [Status_eqb].
  rewrite Hrun. reflexivity.
Qed.

Lemma create_success_witness :
  exists st' w',
    create sampleKeygen networkUp sampleFeePayers
           (render sampleProps idleState) idleState emptyWorld
    = (Ok tt, st', w')
    /\ status st' = active
    /\ creationLock st' = false.
Proof.
  eexists. eexists. split.
  - apply (create_success sampleKeygen networkUp sampleFeePayers
             (render sampleProps idleState) idleState emptyWorld
             (snd (_create sampleKeygen networkUp sampleFeePayers
                           sampleProgramId samplePayer sampleCosts 4
                           emptyWorld))
             sampleConnection sampleProgramId samplePayer sampleCosts
             (mkConfig (map publicKey (map sampleKeygen (seq 0 4)))
                       (sampleFeePayers 4) 256));
      reflexivity.
  - split; reflexivity.
Defined.

(** X14. A complete [close], whatever its outcome, never touches the
    pool config, the costs or the counter and leaves the lock as it
    found it; the status is left as it was when nothing was started
    and is [inactive] otherwise.  Its promise rejects only with one of
    its two precondition errors (state and world unchanged) or, once
    started, with the error of [_close]. *)
Theorem close_frame (network : nat -> Result unit)
        (getFeePayers : Z -> list Keypair)
        (r : Render) (st : State) (w : World) :
  let '(settled, st', w') := close network getFeePayers r st w in
  accounts st' = accounts st
  /\ costs st' = costs st
  /\ calculationCounter st' = calculationCounter st
  /\ creationLock st' = creationLock st
  /\ (fst (closeStart r st) <> Started -> st' = st)
  /\ (fst (closeStart r st) = Started -> status st' = inactive)
  /\ (forall e, settled = Throw e ->
        (In e ["Can't close  until connection is valid";
               "Can't create  if wallet is not setup"]
         /\ st' = st /\ w' = w)
        \/ (fst (closeStart r st) = Started
            /\ exists connection wallet,
                r_connection r = Some connection
                /\ r_wallet r = Some wallet
                /\ fst (_close network getFeePayers connection wallet
                               (r_parallelization r) w) = Throw e)).
Proof.
  unfold close, closeStart.
  destruct (r_connection r) as [connection|].
  2:{ cbn. split; [|split; [|split; [|split; [|split; [|split]]]]];
        intros; try reflexivity; try discriminate.
      left. match goal with H : Throw _ = Throw _ |- _ => injection H as <- end.
      cbn. auto. }
  destruct (r_wallet r) as [wallet|].
  2:{ cbn. split; [|split; [|split; [|split; [|split; [|split]]]]];
        intros; try reflexivity; try discriminate.
      left. match goal with H : Throw _ = Throw _ |- _ => injection H as <- end.
      cbn. auto. }
  destruct (creationLock st) eqn:Hlock.
  { cbn. split; [|split; [|split; [|split; [|split; [|split]]]]];
      intros; try reflexivity; try discriminate; auto. }
  destruct (Status_eqb (r_status r) inactive).
  2:{ cbn. split; [|split; [|split; [|split; [|split; [|split]]]]];
        intros; try reflexivity; try discriminate; auto. }
  destruct (_close network getFeePayers connection wallet
                   (r_parallelization r) w) as [[[]|e] w1] eqn:Hrun;
    cbn -[_close]; (split; [|split; [|split; [|split; [|split; [|split]]]]]);
    intros; try reflexivity; try discriminate; try congruence; auto.
  match goal with H : Throw _ = Throw _ |- _ => injection H as <- end.
  right. split; [reflexivity|]. exists connection, wallet.
  rewrite Hrun. auto.
Qed.

(** X15. While a [create] or [close] is suspended, [deactivate]
    changes nothing; otherwise it sets the status to [inactive],
    whatever it was, and touches nothing else.  Calling it twice is
    the same as calling it once. *)
Theorem deactivate_guarded (s : System) :
  reachable s ->
  (inFlight s <> [] -> deactivate (provider s) = provider s)
  /\ (inFlight s = [] ->
      deactivate (provider s) = setStatus inactive (provider s))
  /\ deactivate (deactivate (provider s)) = deactivate (provider s).
Proof.
  intros Hs. unfold deactivate.
  destruct (reachable_gateInvariant s Hs) as [[Hfree Hnone]|[Hheld [o Hone]]].
  - rewrite Hfree, Hnone. cbn. rewrite Hfree. cbn. repeat split. congruence.
  - rewrite Hheld, Hone. cbn. rewrite Hheld. repeat split. discriminate.
Qed.

Lemma deactivate_guarded_witness :
  deactivate closingState = closingState.
Proof.
  refine (proj1 (deactivate_guarded
            {| provider := closingState; inFlight := [OpClose];
               costLoops := [] |} _) _).
  - exists [RunEffect (Some sampleConnection);
            CostSettles 1 (Ok sampleCosts);
            CallClose (render loadingProps idleState)].
    reflexivity.
  - discriminate.
Defined.

(** X16. A pool that is [active] cannot be closed directly: with the
    lock clear, [close] called on an [active] provider returns without
    doing anything.  After [deactivate], the same call starts the
    teardown. *)
Theorem close_needs_deactivate (p : Props) (st : State) :
  p_connection p <> None ->
  p_wallet p <> None ->
  creationLock st = false ->
  status st = active ->
  closeStart (render p st) st = (Returned [], st)
  /\ closeStart (render p (deactivate st)) (deactivate st)
     = (Started,
        {| costs := costs st; status := closing; accounts := accounts st;
           creationLock := true;
           calculationCounter := calculationCounter st |}).
Proof.
  intros Hc Hw Hlock Hst.
  unfold closeStart, deactivate, render. cbn.
  destruct (p_connection p); [|congruence].
  destruct (p_wallet p); [|congruence].
  rewrite Hlock, Hst. cbn. rewrite Hlock. auto.
Qed.

Lemma close_needs_deactivate_witness :
  closeStart (render sampleProps activeState) activeState
  = (Returned [], activeState).
Proof.
  apply (close_needs_deactivate sampleProps activeState);
    discriminate || reflexivity.
Defined.

(** ** Invariants of the provider *)

Lemma step_statusInvariant (a : Action) (s s' : System) :
  gateInvariant s -> statusInvariant s -> step a s = Some s' ->
  statusInvariant s'.
Proof.
  unfold gateInvariant, statusInvariant.
  intros Hgate (Hcreating & Hclosing & Hactive).
  destruct a as [connection|n result| |r|result|r|result]; cbn [step];
    intros Hstep.
  - unfold effectStart in Hstep.
    destruct connection; injection Hstep as <-; cbn;
      repeat split; discriminate.
  - destruct (hasLoop n (costLoops s)); [|discriminate].
    unfold costIteration in Hstep.
    destruct result as [c|e];
      [destruct (calculationCounter (provider s) =? n)|];
      injection Hstep as <-; cbn; auto.
    destruct (status (provider s)); cbn in *;
      repeat split; auto; discriminate.
  - injection Hstep as <-. cbn. unfold deactivate.
    destruct (creationLock (provider s)); cbn; auto.
    repeat split; discriminate.
  - destruct (createStart_cases r (provider s)) as [(Ho & Hfree & Hst)|[Ho Hst]];
      destruct (createStart r (provider s)) as [outcome st];
      cbn [fst snd] in *; injection Hstep as <-; cbn; subst st.
    + subst outcome. destruct Hgate as [[_ Hnone]|[Hheld _]]; [|congruence].
      rewrite Hnone. cbn. repeat split; auto; discriminate.
    + destruct outcome; try congruence; auto.
  - destruct (hasOp OpCreate (inFlight s)) eqn:Hhas; [|discriminate].
    destruct result; injection Hstep as <-; cbn;
      repeat split; discriminate.
  - destruct (closeStart_cases r (provider s)) as [(Ho & Hfree & Hst)|[Ho Hst]];
      destruct (closeStart r (provider s)) as [outcome st];
      cbn [fst snd] in *; injection Hstep as <-; cbn; subst st.
    + subst outcome. destruct Hgate as [[_ Hnone]|[Hheld _]]; [|congruence].
      rewrite Hnone. cbn. repeat split; auto; discriminate.
    + destruct outcome; try congruence; auto.
  - destruct (hasOp OpClose (inFlight s)) eqn:Hhas; [|discriminate].
    injection Hstep as <-; cbn. repeat split; discriminate.
Qed.

(** X17. In every reachable state, the status [creating] means that
    a [create] (and nothing else) is suspended, the status [closing]
    that a [close] is, and the status [active] that a pool config is in
    place. *)
Theorem status_tells (s : System) :
  reachable s ->
  (status (provider s) = creating -> inFlight s = [OpCreate])
  /\ (status (provider s) = closing -> inFlight s = [OpClose])
  /\ (status (provider s) = active -> accounts (provider s) <> None).
Proof.
  intros [acts Hrun].
  assert (Hboth : gateInvariant s /\ statusInvariant s); [|apply Hboth].
  revert Hrun.
  assert (Hinit : gateInvariant initialSystem /\ statusInvariant initialSystem).
  { split; [left; split; reflexivity|].
    repeat split; cbn; discriminate. }
  revert Hinit. generalize initialSystem as s0. revert s.
  induction acts as [|a acts IH]; intros s s0 [Hg Hs] Hrun; cbn in Hrun.
  - injection Hrun as <-. auto.
  - destruct (step a s0) as [s1|] eqn:Hstep; [|discriminate].
    apply (IH s s1); [|exact Hrun].
    split; [eapply step_gateInvariant|eapply step_statusInvariant]; eauto.
Qed.

Lemma status_tells_witness :
  inFlight {| provider := closingState; inFlight := [OpClose];
              costLoops := [] |} = [OpClose].
Proof.
  refine (proj1 (proj2 (status_tells
            {| provider := closingState; inFlight := [OpClose];
               costLoops := [] |} _)) _).
  - exists [RunEffect (Some sampleConnection);
            CostSettles 1 (Ok sampleCosts);
            CallClose (render loadingProps idleState)].
    reflexivity.
  - reflexivity.
Defined.

Lemma step_costs (a : Action) (s s' : System) :
  step a s = Some s' ->
  costs (provider s') = costs (provider s)
  \/ exists c, a = CostSettles (calculationCounter (provider s)) (Ok c)
               /\ costs (provider s') = Some c.
Proof.
  destruct a as [connection|n result| |r|result|r|result]; cbn [step];
    intros Hstep.
  - unfold effectStart in Hstep.
    destruct connection; injection Hstep as <-; left; reflexivity.
  - destruct (hasLoop n (costLoops s)); [|discriminate].
    unfold costIteration in Hstep.
    destruct result as [c|e].
    + destruct (Z.eqb_spec (calculationCounter (provider s)) n) as [->|Hne];
        injection Hstep as <-; cbn; eauto.
    + injection Hstep as <-. left. reflexivity.
  - injection Hstep as <-. left. cbn. unfold deactivate.
    destruct (negb _); reflexivity.
  - destruct (createStart_cases r (provider s)) as [(_ & _ & Hst)|[_ Hst]];
      destruct (createStart r (provider s)) as [outcome st];
      cbn [snd] in Hst; injection Hstep as <-; subst st; left; reflexivity.
  - destruct (hasOp OpCreate (inFlight s)); [|discriminate].
    destruct result; injection Hstep as <-; left; reflexivity.
  - destruct (closeStart_cases r (provider s)) as [(_ & _ & Hst)|[_ Hst]];
      destruct (closeStart r (provider s)) as [outcome st];
      cbn [snd] in Hst; injection Hstep as <-; subst st; left; reflexivity.
  - destruct (hasOp OpClose (inFlight s)); [|discriminate].
    injection Hstep as <-; left; reflexivity.
Qed.

(** X18. The costs change only when the cost loop of the current
    generation succeeds; in particular a new run of the effect keeps
    the costs of the previous generation, and costs once known are
    never forgotten. *)
Theorem costs_never_forgotten :
  (forall a s s',
      step a s = Some s' ->
      costs (provider s') = costs (provider s)
      \/ exists c, a = CostSettles (calculationCounter (provider s)) (Ok c)
                   /\ costs (provider s') = Some c)
  /\ (forall acts s s',
         run acts s = Some s' ->
         costs (provider s) <> None -> costs (provider s') <> None).
Proof.
  split; [exact step_costs|].
  induction acts as [|a acts IH]; intros s s' Hrun Hknown; cbn in Hrun.
  - injection Hrun as <-. exact Hknown.
  - destruct (step a s) as [s1|] eqn:Hstep; [|discriminate].
    apply (IH s1 s' Hrun).
    destruct (step_costs a s s1 Hstep) as [Heq|(c & _ & Hc)];
      congruence.
Qed.

Lemma costs_never_forgotten_witness :
  exists s' : System,
    run [RunEffect None; Deactivate]
        {| provider := idleState; inFlight := []; costLoops := [] |}
    = Some s'
    /\ costs (provider s') <> None.
Proof.
  eexists. split; [reflexivity|].
  refine (proj2 costs_never_forgotten [RunEffect None; Deactivate]
            {| provider := idleState; inFlight := []; costLoops := [] |}
            _ eq_refl _).
  discriminate.
Defined.

Lemma removeLoop_incl (n x : Z) (l : list Z) :
  In x (removeLoop n l) -> In x l.
Proof.
  induction l as [|y l IH]; cbn; [auto|].
  destruct (n =? y); cbn; intuition.
Qed.

Lemma removeLoop_NoDup (n : Z) (l : list Z) :
  NoDup l -> NoDup (removeLoop n l).
Proof.
  induction 1 as [|y l Hnin Hnd IH]; cbn; [constructor|].
  destruct (n =? y); [exact Hnd|].
  constructor; [|exact IH]. intros Hin. apply Hnin.
  eapply removeLoop_incl; eauto.
Qed.

Lemma step_costLoops (a : Action) (s s' : System) :
  step a s = Some s' ->
  costLoops s' = costLoops s
  \/ (costLoops s' = (calculationCounter (provider s) + 1) :: costLoops s
      /\ exists connection, a = RunEffect connection)
  \/ exists n, costLoops s' = removeLoop n (costLoops s).
Proof.
  destruct a as [connection|n result| |r|result|r|result]; cbn [step];
    intros Hstep.
  - unfold effectStart in Hstep.
    destruct connection; injection Hstep as <-; cbn; eauto.
  - destruct (hasLoop n (costLoops s)); [|discriminate].
    destruct (costIteration n result (provider s)) as [[st log] finished].
    injection Hstep as <-. cbn. destruct finished; eauto.
  - injection Hstep as <-. auto.
  - destruct (createStart r (provider s)). injection Hstep as <-. auto.
  - destruct (hasOp OpCreate (inFlight s)); [|discriminate].
    destruct (createFinish result (provider s)) as [[x y] z].
    injection Hstep as <-. auto.
  - destruct (closeStart r (provider s)). injection Hstep as <-. auto.
  - destruct (hasOp OpClose (inFlight s)); [|discriminate].
    injection Hstep as <-. auto.
Qed.

Lemma step_loopsInvariant (a : Action) (s s' : System) :
  loopsInvariant s -> step a s = Some s' -> loopsInvariant s'.
Proof.
  unfold loopsInvariant. intros (Hnd & Hall & Hpos) Hstep.
  pose proof (step_counter a s s' Hstep) as [Hmono Hinc].
  assert (Hweak : Forall (fun n => n <= calculationCounter (provider s'))
                         (costLoops s))
    by (revert Hall; apply Forall_impl; intros; lia).
  destruct (step_costLoops a s s' Hstep)
    as [Heq|[[Heq [connection ->]]|[n Heq]]]; rewrite Heq.
  - repeat split; auto; lia.
  - specialize (Hinc connection eq_refl).
    split; [|split; [|lia]].
    + constructor; [|exact Hnd]. intros Hin.
      rewrite Forall_forall in Hall. specialize (Hall _ Hin). lia.
    + constructor; [lia|exact Hweak].
  - split; [|split; [|lia]].
    + now apply removeLoop_NoDup.
    + rewrite Forall_forall in *. intros x Hx. apply Hweak.
      eapply removeLoop_incl; eauto.
Qed.

(** X19. In every reachable state the running cost loops hold
    distinct saved counters, none above the current counter, so at most
    one of them is the loop of the current generation, the only one
    whose success can store costs. *)
Theorem one_current_cost_loop (s : System) :
  reachable s ->
  NoDup (costLoops s)
  /\ Forall (fun n => n <= calculationCounter (provider s)) (costLoops s)
  /\ (count_occ Z.eq_dec (costLoops s) (calculationCounter (provider s))
      <= 1)%nat
  /\ (forall g c, In g (costLoops s) ->
        g <> calculationCounter (provider s) ->
        costIteration g (Ok c) (provider s) = (provider s, [], true)).
Proof.
  intros [acts Hrun].
  assert (Hinv : loopsInvariant s).
  { revert Hrun.
    assert (Hinit : loopsInvariant initialSystem)
      by (repeat split; cbn; [constructor|constructor|lia]).
    revert Hinit. generalize initialSystem as s0. revert s.
    induction acts as [|a acts IH]; intros s s0 H0 Hrun; cbn in Hrun.
    - now injection Hrun as <-.
    - destruct (step a s0) as [s1|] eqn:Hstep; [|discriminate].
      eauto using step_loopsInvariant. }
  destruct Hinv as (Hnd & Hall & _).
  split; [exact Hnd|]. split; [exact Hall|]. split.
  - now apply NoDup_count_occ.
  - intros g c _ Hne. unfold costIteration.
    destruct (Z.eqb_spec (calculationCounter (provider s)) g);
      [congruence|reflexivity].
Qed.

Lemma one_current_cost_loop_witness :
  exists s : System,
    run [RunEffect (Some sampleConnection); RunEffect (Some sampleConnection)]
        initialSystem = Some s
    /\ costLoops s = [2; 1]
    /\ (count_occ Z.eq_dec (costLoops s) (calculationCounter (provider s))
        <= 1)%nat.
Proof.
  eexists. split; [reflexivity|]. split; [reflexivity|].
  refine (proj1 (proj2 (proj2 (one_current_cost_loop _ _)))).
  exists [RunEffect (Some sampleConnection); RunEffect (Some sampleConnection)].
  reflexivity.
Defined.

Lemma step_cost_failure (s : System) (g : Z) (e : Error) :
  hasLoop g (costLoops s) = true ->
  step (CostSettles g (Throw e)) s = Some s.
Proof.
  intros Hhas. destruct s as [st ops loops]. cbn in *.
  rewrite Hhas. reflexivity.
Qed.

(** X20. The cost loop retries until it succeeds: any number of
    failed attempts of the loop of the current generation leave the
    provider as it is (each logs and waits 2000 ms), and the success
    that follows stores the costs, moves an [initializing] status to
    [inactive] and ends the loop. *)
Theorem cost_loop_retries (s : System) (errs : list Error)
        (accountCosts : AccountCosts) :
  let g := calculationCounter (provider s) in
  hasLoop g (costLoops s) = true ->
  run (map (fun e => CostSettles g (Throw e)) errs
         ++ [CostSettles g (Ok accountCosts)]) s
  = Some {| provider :=
              {| costs := Some accountCosts;
                 status := match status (provider s) with
                           | initializing => inactive
                           | other => other
                           end;
                 accounts := accounts (provider s);
                 creationLock := creationLock (provider s);
                 calculationCounter := g |};
            inFlight := inFlight s;
            costLoops := removeLoop g (costLoops s) |}
  /\ (forall e st,
         costIteration g (Throw e) st
         = (st, [EvConsoleError "Failed to calculate account costs, retrying";
                 EvSleep 2000], false)).
Proof.
  intros g Hhas. split; [|reflexivity].
  induction errs as [|e errs IH].
  - cbn [map app run step]. fold g. rewrite Hhas.
    unfold costIteration. fold g. rewrite Z.eqb_refl. reflexivity.
  - cbn [map app run]. rewrite (step_cost_failure s g e Hhas). exact IH.
Qed.

Lemma cost_loop_retries_witness :
  exists s' : System,
    run (map (fun e => CostSettles 1 (Throw e)) ["timeout"; "timeout"]
           ++ [CostSettles 1 (Ok sampleCosts)])
        {| provider := setAccounts None
                         (setStatus initializing
                            (setCalculationCounter 1 initialState));
           inFlight := []; costLoops := [1] |}
    = Some s'
    /\ provider s' = idleState.
Proof.
  eexists. split.
  - apply (cost_loop_retries
             {| provider := setAccounts None
                              (setStatus initializing
                                 (setCalculationCounter 1 initialState));
                inFlight := []; costLoops := [1] |}
             ["timeout"; "timeout"] sampleCosts).
    reflexivity.
  - reflexivity.
Defined.

(** ** From provisioning to teardown *)

Lemma traceCreated_batches (breakProgramId : PublicKey) (payer : Keypair)
      (costs : AccountCosts) (space : Z) (batches : list Batch) :
  traceCreated (map (batchSend breakProgramId payer costs space) batches)
  = map (fun pair => publicKey (fst pair)) (concat batches).
Proof.
  induction batches as [|b batches IH]; [reflexivity|].
  cbn [map concat]. rewrite map_app. unfold traceCreated in *.
  cbn [flat_map batchSend]. now rewrite IH, batch_created.
Qed.

Lemma traceFunded_batches (breakProgramId : PublicKey) (payer : Keypair)
      (costs : AccountCosts) (space : Z) (batches : list Batch) :
  traceFunded (map (batchSend breakProgramId payer costs space) batches)
  = map (fun pair => publicKey (snd pair)) (concat batches).
Proof.
  induction batches as [|b batches IH]; [reflexivity|].
  cbn [map concat]. rewrite map_app. unfold traceFunded in *.
  cbn [flat_map batchSend]. now rewrite IH, batch_funded.
Qed.

(** X21. When every transaction is confirmed, the config returned by
    [_create] describes what was put on the ledger: the accounts
    created by the submitted transactions are the program accounts of
    the config, and the accounts funded are its fee payers, each once
    and in order.  Those fee payers are the accounts a later [_close]
    for the same parallelization takes its transfers from. *)
Theorem create_config_matches_ledger
        (keygen : nat -> Keypair) (network : nat -> Result unit)
        (getFeePayers : Z -> list Keypair)
        (breakProgramId : PublicKey) (payer : Keypair) (costs : AccountCosts)
        (P : Z) (w : World) :
  1 <= P ->
  List.length (getFeePayers P) = Z.to_nat P ->
  (forall n, network n = Ok tt) ->
  exists (config : Config) (w' : World) (evs : list Event),
    _create keygen network getFeePayers breakProgramId payer costs P w
    = (Ok config, w')
    /\ trace w' = trace w ++ evs
    /\ traceCreated evs = program config
    /\ traceFunded evs = map publicKey (feePayerKeypairs config)
    /\ (forall network' connection w2 tx signers,
          trace (snd (_close network' getFeePayers connection payer P w2))
          = trace w2 ++ [EvSend tx signers None] ->
          transferSources tx = traceFunded evs).
Proof.
  intros HP Hfee Hup.
  destruct (create_up keygen network getFeePayers breakProgramId payer costs
                      P w ltac:(lia) Hfee Hup)
    as (batches & Heq & Hcat & _).
  set (programKeypairs := map keygen (seq (keysGenerated w) (Z.to_nat P))) in *.
  assert (Hlen : List.length programKeypairs = List.length (getFeePayers P))
    by (unfold programKeypairs; now rewrite length_map, length_seq, Hfee).
  assert (Hfunded :
    traceFunded (map (batchSend breakProgramId payer costs
                                (calculateProgrampace P)) batches)
    = map publicKey (getFeePayers P)).
  { rewrite traceFunded_batches, Hcat, <- (map_map snd publicKey).
    now rewrite map_snd_combine. }
  eexists. eexists. eexists. split; [exact Heq|].
  cbn [trace program feePayerKeypairs].
  split; [reflexivity|]. split; [|split; [exact Hfunded|]].
  - rewrite traceCreated_batches, Hcat, <- (map_map fst publicKey).
    now rewrite map_fst_combine.
  - intros network' connection w2 tx signers Htrace. rewrite Hfunded.
    unfold _close, bind, liftResult in Htrace.
    destruct (promiseAll _) as [balances|e] eqn:Hbal; cbn in Htrace.
    + apply app_inv_head in Htrace. injection Htrace as <- _.
      assert (Hb : List.length balances = List.length (getFeePayers P)).
      { clear - Hbal. revert balances Hbal.
        induction (getFeePayers P) as [|fp l IH]; intros balances Hbal;
          cbn in Hbal.
        - injection Hbal as <-. reflexivity.
        - destruct (getBalance connection (publicKey fp)); [|discriminate].
          destruct (promiseAll _) as [vs|]; [|discriminate].
          injection Hbal as <-. cbn. f_equal. now apply IH. }
      clear - Hb. revert balances Hb.
      induction (getFeePayers P) as [|fp l IH]; intros [|b balances] Hb;
        cbn in *; try discriminate; [reflexivity|].
      f_equal. apply IH. congruence.
    + exfalso. apply (f_equal (@List.length Event)) in Htrace.
      rewrite length_app in Htrace. cbn in Htrace. lia.
Qed.

Lemma create_config_matches_ledger_witness :
  exists (config : Config) (w' : World) (evs : list Event),
    _create sampleKeygen networkUp sampleFeePayers sampleProgramId
            samplePayer sampleCosts 7 emptyWorld = (Ok config, w')
    /\ trace w' = [] ++ evs
    /\ traceCreated evs = program config.
Proof.
  destruct (create_config_matches_ledger sampleKeygen networkUp
              sampleFeePayers sampleProgramId samplePayer sampleCosts 7
              emptyWorld)
    as (config & w' & evs & Hrun & Htrace & Hcreated & _);
    [lia | reflexivity | intros n; reflexivity |].
  exists config, w', evs. auto.
Defined.

(** X22. [create] has no guard against a change of generation: when
    the effect runs while a [create] is suspended (the connection or
    the parallelization changed), the lock stays held, and the later
    success of that [create] still stores its config and sets the
    status to [active], over the [initializing] the effect had set. *)
Theorem create_result_survives_effect (s : System)
        (connection : option Connection) (config : Config) :
  reachable s ->
  inFlight s = [OpCreate] ->
  exists s1 s2,
    step (RunEffect connection) s = Some s1
    /\ status (provider s1) = initializing
    /\ accounts (provider s1) = None
    /\ creationLock (provider s1) = true
    /\ step (CreateSettles (Ok config)) s1 = Some s2
    /\ status (provider s2) = active
    /\ accounts (provider s2) = Some config
    /\ calculationCounter (provider s2) = calculationCounter (provider s) + 1
    /\ inFlight s2 = [].
Proof.
  intros Hs Hflight.
  destruct (reachable_gateInvariant s Hs) as [[_ Hnone]|[Hheld _]];
    [congruence|].
  destruct s as [st ops loops]. cbn in *. subst ops.
  unfold effectStart.
  destruct connection; eexists; eexists;
    (split; [reflexivity|]); cbn; auto 10.
Qed.

Lemma create_result_survives_effect_witness :
  exists s2 : System,
    run [RunEffect (Some sampleConnection);
         CostSettles 1 (Ok sampleCosts);
         CallCreate (render sampleProps idleState);
         RunEffect (Some sampleConnection);
         CreateSettles (Ok (mkConfig [] [] 0))] initialSystem = Some s2
    /\ status (provider s2) = active.
Proof.
  destruct (create_result_survives_effect
              {| provider := setStatus creating (setCreationLock true idleState);
                 inFlight := [OpCreate]; costLoops := [] |}
              (Some sampleConnection) (mkConfig [] [] 0))
    as (s1 & s2 & H1 & _ & _ & _ & H2 & Hactive & _).
  - exists [RunEffect (Some sampleConnection);
            CostSettles 1 (Ok sampleCosts);
            CallCreate (render sampleProps idleState)].
    reflexivity.
  - reflexivity.
  - exists s2. split; [|exact Hactive].
    cbn [run]. 
    change (step (RunEffect (Some sampleConnection)) initialSystem)
      with (Some {| provider := setAccounts None
                                  (setStatus initializing
                                     (setCalculationCounter 1 initialState));
                    inFlight := []; costLoops := [1] |}).
    cbn in H1, H2 |- *. injection H1 as <-. exact H2.
Defined.

(** ** The storage size in double precision *)

(** X23. For every parallelization from 1 to 4096, evaluating
    [Math.ceil(1000 / parallelization / 8)] in IEEE binary64 (two
    correctly rounded divisions, then the ceiling) gives a finite
    number, the same integer as the exact evaluation: the least [n]
    with [1000 <= 8 * P * n]. *)
Theorem double_evaluation_agrees (P : Z) :
  1 <= P <= 4096 ->
  exists n : Z,
    Double.calculateProgrampace64 P = Some n
    /\ calculateProgrampace P = n
    /\ 8 * P * (n - 1) < 1000 <= 8 * P * n.
Proof.
  intros HP. exists (calculateProgrampace P).
  split; [|split; [reflexivity|apply space_is_ceiling; lia]].
  apply (agreeFrom_sound (Z.to_nat 4096) 1).
  - vm_compute. reflexivity.
  - lia.
Qed.

Lemma double_evaluation_agrees_witness :
  exists n : Z, Double.calculateProgrampace64 3 = Some n /\ n = 42.
Proof.
  destruct (double_evaluation_agrees 3) as (n & Hd & Hn & _); [lia|].
  exists n. split; [exact Hd|]. rewrite <- Hn. reflexivity.
Defined.
